(** * ThreeBodyProblem.py: the simulation core, embedded and verified

    The script keeps its state in module-level numpy arrays ([masses],
    [positions], [velocities], [trajectories]), computes the pairwise
    Newtonian accelerations in [compute_accelerations] and advances the
    state in the main integration loop.  The code that follows the loop only
    reads [trajectories]: the values it computes from the buffer (axis
    limits, trails, markers, frames) are embedded further down, the calls
    into matplotlib are not.

    Numbers.  The script computes in IEEE binary64.  The embedding is
    written once over an abstract scalar type (class [Scalar]) and used at
    two instances: the real numbers, for the statements that are about
    exact arithmetic, and Rocq's primitive binary64 floats, on which the
    model runs.  Statements that do not depend on any arithmetic law are
    proved for every instance.

    Arrays.  A two-dimensional array of shape (N, 3) is a list of N rows,
    each row a [Vec3]; an index out of range raises [IndexError] and a shape
    that numpy cannot broadcast raises [ValueError], as numpy does. *)

From Stdlib Require Import PrimFloat FloatOps FloatAxioms SpecFloat.
From Stdlib Require Import Reals Lra ZArith Lia.
From stdpp Require Import base list.

#[local] Set Warnings "-inexact-float".

(** ** Scalars *)

Class Scalar (F : Type) : Type := {
  fzero : F;                    (* 0.0, the fill value of np.zeros *)
  fadd : F -> F -> F;
  fsub : F -> F -> F;
  fmul : F -> F -> F;
  fdiv : F -> F -> F;
  fsqrt : F -> F;               (* the square root inside np.linalg.norm *)
  fpow : F -> nat -> F;         (* x ** n for a literal exponent n *)
  G : F                         (* G = 6.67430e-11 *)
}.

Declare Scope scalar_scope.
Delimit Scope scalar_scope with sc.
Infix "+" := fadd : scalar_scope.
Infix "-" := fsub : scalar_scope.
Infix "*" := fmul : scalar_scope.
Infix "/" := fdiv : scalar_scope.
Infix "**" := fpow (at level 30, right associativity) : scalar_scope.

(** ** Rows of an (N, 3) array and numpy's element-wise operations *)

Record Vec3 (F : Type) : Type := mkVec3 { vx : F; vy : F; vz : F }.
Arguments mkVec3 {F} _ _ _.
Arguments vx {F} _.
Arguments vy {F} _.
Arguments vz {F} _.

(** Python exceptions the core can raise. *)
Inductive PyError : Type :=
| IndexError    (* index out of bounds *)
| ValueError.   (* negative dimension, shapes that do not broadcast *)

Inductive Result (A : Type) : Type :=
| Ok (a : A)
| Raise (e : PyError).
Arguments Ok {A} a.
Arguments Raise {A} e.

Definition is_ok {A} (r : Result A) : bool :=
  match r with Ok _ => true | Raise _ => false end.

Section Core.
Context {F : Type} `{Scalar F}.
Local Open Scope scalar_scope.

Definition vzero : Vec3 F := mkVec3 fzero fzero fzero.

(* a + b, a - b on rows *)
Definition vadd (a b : Vec3 F) : Vec3 F :=
  mkVec3 (vx a + vx b) (vy a + vy b) (vz a + vz b).
Definition vsub (a b : Vec3 F) : Vec3 F :=
  mkVec3 (vx a - vx b) (vy a - vy b) (vz a - vz b).
(* k * a with the scalar on the left, a * k with the scalar on the right *)
Definition smul (k : F) (a : Vec3 F) : Vec3 F :=
  mkVec3 (k * vx a) (k * vy a) (k * vz a).
Definition vmul (a : Vec3 F) (k : F) : Vec3 F :=
  mkVec3 (vx a * k) (vy a * k) (vz a * k).
(* a / k *)
Definition vdiv (a : Vec3 F) (k : F) : Vec3 F :=
  mkVec3 (vx a / k) (vy a / k) (vz a / k).
(* np.linalg.norm(r) for a one-dimensional r: sqrt(dot(r, r)) *)
Definition norm (r : Vec3 F) : F :=
  fsqrt (vx r * vx r + vy r * vy r + vz r * vz r).

(** ** The module-level arrays *)

Record Store : Type := mkStore {
  masses : list F;                       (* shape (M,) *)
  positions : list (Vec3 F);             (* shape (N, 3) *)
  velocities : list (Vec3 F);            (* shape (V, 3) *)
  trajectories : list (list (Vec3 F))    (* shape (3, steps, 3): body, step *)
}.

Definition set_positions (p : list (Vec3 F)) (s : Store) : Store :=
  mkStore (masses s) p (velocities s) (trajectories s).
Definition set_velocities (v : list (Vec3 F)) (s : Store) : Store :=
  mkStore (masses s) (positions s) v (trajectories s).
Definition set_trajectories (tr : list (list (Vec3 F))) (s : Store) : Store :=
  mkStore (masses s) (positions s) (velocities s) tr.

(** ** Statements: a state monad over the store, with exceptions *)

Definition M (A : Type) : Type := Store -> Result (A * Store).

Definition ret {A} (a : A) : M A := fun s => Ok (a, s).
Definition bind {A B} (c : M A) (k : A -> M B) : M B :=
  fun s => match c s with
           | Ok (a, s') => k a s'
           | Raise e => Raise e
           end.
Definition raise {A} (e : PyError) : M A := fun _ => Raise e.
Definition read {A} (field : Store -> A) : M A := fun s => Ok (field s, s).
Definition write (upd : Store -> Store) : M unit := fun s => Ok (tt, upd s).
Definition lift {A} (r : Result A) : M A :=
  fun s => match r with Ok a => Ok (a, s) | Raise e => Raise e end.

Notation "x <- c ;; k" := (bind c (fun x => k))
  (at level 100, c at next level, right associativity).
Notation "c ;;; k" := (bind c (fun _ => k))
  (at level 100, right associativity).

(* a[i] *)
Definition getitem {A} (a : list A) (i : nat) : M A :=
  match a !! i with
  | Some x => ret x
  | None => raise IndexError
  end.

(* for x in xs: st = body x st *)
Fixpoint for_each {A S} (xs : list A) (body : A -> S -> M S) (st : S) : M S :=
  match xs with
  | [] => ret st
  | x :: xs' => st' <- body x st ;; for_each xs' body st'
  end.

(* range(n) *)
Definition range (n : nat) : list nat := seq 0 n.

(* np.zeros_like(a) *)
Definition zeros_like (a : list (Vec3 F)) : list (Vec3 F) :=
  replicate (length a) vzero.

(** ** compute_accelerations *)

Definition compute_accelerations (pos : list (Vec3 F)) : M (list (Vec3 F)) :=
  for_each (range 3) (fun i acc =>
    for_each (range 3) (fun j acc =>
      if negb (i =? j) then
        pj <- getitem pos j ;;
        pi <- getitem pos i ;;
        let r := vsub pj pi in
        let dist := norm r in
        ai <- getitem acc i ;;
        ms <- read masses ;;
        mj <- getitem ms j ;;
        ret (<[i := vadd ai (vdiv (smul (G * mj) r) (dist ** 3))]> acc)
      else ret acc) acc)
    (zeros_like pos).

(** ** numpy assignments used by the main loop *)

(* The value b broadcast to n rows: b itself when it has n rows, its only
   row repeated when it has one, a ValueError otherwise. *)
Definition broadcast_to (n : nat) (b : list (Vec3 F)) : Result (list (Vec3 F)) :=
  if length b =? n then Ok b
  else match b with
       | [row] => Ok (replicate n row)
       | _ => Raise ValueError
       end.

(* a += b on (N, 3) arrays: b is broadcast to the shape of a. *)
Definition iadd (a b : list (Vec3 F)) : Result (list (Vec3 F)) :=
  match broadcast_to (length a) b with
  | Ok b' => Ok (zip_with vadd a b')
  | Raise e => Raise e
  end.

(* a * k on an (N, 3) array *)
Definition amul (a : list (Vec3 F)) (k : F) : list (Vec3 F) :=
  map (fun row => vmul row k) a.

(* tr[:, t] = src.  The index t is checked against the second axis first,
   then src is broadcast to the (bodies, 3) slice and copied into it. *)
Definition setitem_column (tr : list (list (Vec3 F))) (t : nat)
    (src : list (Vec3 F)) : Result (list (list (Vec3 F))) :=
  if forallb (fun body => t <? length body) tr then
    match broadcast_to (length tr) src with
    | Ok rows => Ok (zip_with (fun body row => <[t := row]> body) tr rows)
    | Raise e => Raise e
    end
  else Raise IndexError.

(* The largest value of numpy's index type npy_intp, 2**63 - 1 on the 64-bit
   platforms numpy supports. *)
Definition max_intp : Z := 9223372036854775807.

(* The size check of numpy's array constructor for float64: the item size 8
   is multiplied by every nonzero dimension in turn, and a product that does
   not fit npy_intp is refused. *)
Definition too_big (dims : list Z) : bool :=
  (max_intp <? foldl (fun n d => if (d =? 0)%Z then n else n * d) 8 dims)%Z.

(* np.zeros((bodies, steps, 3)).  numpy raises ValueError for a negative
   dimension ("negative dimensions are not allowed") and for a shape that
   fails the size check ("array is too big", or "Maximum allowed dimension
   exceeded" when steps itself does not fit npy_intp).  Past these checks the
   allocation is taken to succeed: whether the operating system grants the
   memory (MemoryError otherwise) depends on the machine and is not modelled.
   The statements about whole runs therefore either fix the number of steps
   or assume that the run has completed. *)
Definition np_zeros (bodies : nat) (steps : Z) : Result (list (list (Vec3 F))) :=
  if (steps <? 0)%Z then Raise ValueError
  else if too_big [Z.of_nat bodies; steps; 3%Z] then Raise ValueError
  else Ok (replicate bodies (replicate (Z.to_nat steps) vzero)).

(** ** The main integration loop *)

(* The body of [for t in range(steps)]. *)
Definition loop_body (dt : F) (t : nat) : M unit :=
  (* trajectories[:, t] = positions *)
  tr <- read trajectories ;;
  ps <- read positions ;;
  tr' <- lift (setitem_column tr t ps) ;;
  write (set_trajectories tr') ;;;
  (* acc = compute_accelerations(positions) *)
  ps <- read positions ;;
  acc <- compute_accelerations ps ;;
  (* velocities += acc * dt *)
  vs <- read velocities ;;
  vs' <- lift (iadd vs (amul acc dt)) ;;
  write (set_velocities vs') ;;;
  (* positions += velocities * dt *)
  ps <- read positions ;;
  vs <- read velocities ;;
  ps' <- lift (iadd ps (amul vs dt)) ;;
  write (set_positions ps').

(* range(steps) for a Python int *)
Definition range_Z (steps : Z) : list nat := range (Z.to_nat steps).

Definition main_loop (dt : F) (steps : Z) : M unit :=
  for_each (range_Z steps) (fun t _ => loop_body dt t) tt.

(** The script from its initial conditions to the end of the loop: the
    trajectory buffer is allocated, then the loop runs.  The result is the
    final store: masses, final positions and velocities, trajectories. *)
Definition simulate (masses0 : list F) (positions0 velocities0 : list (Vec3 F))
    (dt : F) (steps : Z) : Result Store :=
  match np_zeros 3 steps with
  | Ok tr =>
      match main_loop dt steps (mkStore masses0 positions0 velocities0 tr) with
      | Ok (_, s) => Ok s
      | Raise e => Raise e
      end
  | Raise e => Raise e
  end.

End Core.

Arguments Store F : clear implicits.
Arguments M F : clear implicits.

(** ** The two scalar instances *)

(** Exact arithmetic. *)
#[export] Instance R_Scalar : Scalar R := {|
  fzero := 0%R;
  fadd := Rplus;
  fsub := Rminus;
  fmul := Rmult;
  fdiv := Rdiv;
  fsqrt := R_sqrt.sqrt;
  fpow := pow;
  G := 6.67430e-11%R
|}.

(** IEEE binary64.  The literal is the double nearest to 6.67430e-11.
    [x ** n] is computed by repeated multiplication and the norm by the
    sequential dot product; the libm routines numpy calls may differ from
    these in the last bit, which no statement below depends on (a zero
    separation gives 0 ** 3 = 0, NaN ** 3 is NaN and the cube of 1e-110
    rounds to zero either way). *)
Fixpoint float_pow (x : float) (n : nat) : float :=
  match n with
  | O => 1%float
  | S O => x
  | S n' => PrimFloat.mul x (float_pow x n')
  end.

#[export] Instance float_Scalar : Scalar float := {|
  fzero := 0%float;
  fadd := PrimFloat.add;
  fsub := PrimFloat.sub;
  fmul := PrimFloat.mul;
  fdiv := PrimFloat.div;
  fsqrt := PrimFloat.sqrt;
  fpow := float_pow;
  G := 0x1.2589effed8accp-34%float
|}.

(** ** The initial conditions of the script *)

Module Script.

Definition masses : list float := [1.0e27; 1.5e27; 0.55e27]%float.

Definition positions : list (Vec3 float) :=
  [ mkVec3 1e10 0 0; mkVec3 (-1e10) 0 0; mkVec3 0 1e10 0 ]%float.

Definition velocities : list (Vec3 float) :=
  [ mkVec3 10 1000 (-150); mkVec3 (-20) (-1500) 100; mkVec3 2000 0 250 ]%float.

Definition dt : float := 0.25e4%float.
Definition steps : Z := 50000.

End Script.

(** * Definitions used to state the properties *)

Section Statements.
Context {F : Type} `{Scalar F}.
Local Open Scope scalar_scope.

(** The attraction of body j on body i, as line 65 computes it. *)
Definition pull (ms : list F) (pos : list (Vec3 F)) (i j : nat) : Vec3 F :=
  let r := vsub (nth j pos vzero) (nth i pos vzero) in
  vdiv (smul (G * nth j ms fzero) r) (norm r ** 3).

(** Row i of the result for i < 3: the two pulls added to the zero row in
    the order of the inner loop. *)
Definition acc_row (ms : list F) (pos : list (Vec3 F)) (i : nat) : Vec3 F :=
  match List.filter (fun j => negb (i =? j)) (range 3) with
  | [j1; j2] => vadd (vadd vzero (pull ms pos i j1)) (pull ms pos i j2)
  | _ => vzero
  end.

(** Computations that only read the masses.

    [c] reads nothing but [masses] and writes nothing when its outcome is a
    function of the masses and the store comes back as it was. *)
Definition reads_masses_only {A} (c : M F A) : Prop :=
  exists f : list F -> Result A, forall s, c s = lift (f (masses s)) s.

(** The acceleration law as a function of the mass vector and the position
    snapshot: [compute_accelerations] run where only the masses exist. *)
Definition accelerations (ms : list F) (pos : list (Vec3 F)) : Result (list (Vec3 F)) :=
  match compute_accelerations pos (mkStore ms [] [] []) with
  | Ok (acc, _) => Ok acc
  | Raise e => Raise e
  end.

(** The shapes the script's own arrays have: three bodies, at least three
    masses, and a trajectory buffer of three bodies by [cap] steps. *)
Definition shaped (cap : nat) (s : Store F) : Prop :=
  length (positions s) = 3 /\ length (velocities s) = 3 /\
  3 <= length (masses s) /\
  length (trajectories s) = 3 /\
  Forall (fun body => length body = cap) (trajectories s).

(** The store one iteration leaves behind, written as a function. *)
Definition next_store (dt : F) (t : nat) (s : Store F) : Store F :=
  let acc := map (acc_row (masses s) (positions s)) (range 3) in
  let vs' := zip_with vadd (velocities s) (amul acc dt) in
  let ps' := zip_with vadd (positions s) (amul vs' dt) in
  let tr' := zip_with (fun body row => <[t := row]> body)
               (trajectories s) (positions s) in
  mkStore (masses s) ps' vs' tr'.

(** trajectories[i, t] *)
Definition trajectory_at (s : Store F) (i t : nat) : option (Vec3 F) :=
  match trajectories s !! i with
  | Some body => body !! t
  | None => None
  end.

(** The store after iterations a, a+1, ..., a+n-1. *)
Fixpoint iterate_from (dt : F) (a n : nat) (s : Store F) : Store F :=
  match n with
  | O => s
  | S n' => iterate_from dt (S a) n' (next_store dt a s)
  end.

(** The store the loop starts from. *)
Definition initial_store (masses0 : list F) (positions0 velocities0 : list (Vec3 F))
    (steps : Z) : Store F :=
  mkStore masses0 positions0 velocities0
    (replicate 3 (replicate (Z.to_nat steps) vzero)).

(** The value a computation returns, without the store. *)
Definition value_of {A} (r : Result (A * Store F)) : Result A :=
  match r with Ok (a, _) => Ok a | Raise e => Raise e end.

(** The outcome of the acceleration law cut down to its first three rows. *)
Definition first_three (r : Result (list (Vec3 F))) : Result (list (Vec3 F)) :=
  match r with Ok acc => Ok (take 3 acc) | Raise e => Raise e end.

End Statements.

Section ExactStatements.
Local Open Scope R_scope.

(** The acceleration law in the words of the specification:
    acceleration(i) = G * Σ_{j≠i} mass[j] * (pos[j] - pos[i]) / |pos[j] - pos[i]|³,
    the sum over the indices of the snapshot other than i. *)
Definition vsum (l : list (Vec3 R)) : Vec3 R := foldr vadd vzero l.

Definition newtonian_acceleration (ms : list R) (pos : list (Vec3 R)) (i : nat) : Vec3 R :=
  smul G
    (vsum (map (fun j =>
                  let d := vsub (nth j pos vzero) (nth i pos vzero) in
                  vdiv (smul (nth j ms 0) d) (norm d ^ 3))
               (List.filter (fun j => negb (j =? i)%nat) (seq 0 (length pos))))).

(** Σ_i masses[i] * a[i] *)
Definition weighted_sum (ms : list R) (a : list (Vec3 R)) : Vec3 R :=
  vsum (zip_with smul ms a).

(** The two-body scenario of the specification. *)
Definition two_body_masses : list R := [1e27; 1e27].
Definition two_body_positions : list (Vec3 R) :=
  [mkVec3 1e10 0 0; mkVec3 (-1e10) 0 0].
Definition two_body_velocities : list (Vec3 R) :=
  [mkVec3 0 0 0; mkVec3 0 0 0].

End ExactStatements.

(** ** Concrete inputs *)

(** The script's initial conditions as real numbers. *)
Definition exact_masses : list R := [1.0e27; 1.5e27; 0.55e27]%R.
Definition exact_positions : list (Vec3 R) :=
  [ mkVec3 1e10 0 0; mkVec3 (-1e10) 0 0; mkVec3 0 1e10 0 ]%R.
Definition exact_velocities : list (Vec3 R) :=
  [ mkVec3 10 1000 (-150); mkVec3 (-20) (-1500) 100; mkVec3 2000 0 250 ]%R.
Definition exact_dt : R := 0.25e4%R.
Definition exact_store : Store R :=
  initial_store exact_masses exact_positions exact_velocities 1.

(** The script's store in binary64, with room for three steps. *)
Definition float_store : Store float :=
  initial_store Script.masses Script.positions Script.velocities 3.

(** Two of the three bodies at the same position. *)
Definition coincident_positions : list (Vec3 float) :=
  [ mkVec3 1e10 0 0; mkVec3 1e10 0 0; mkVec3 0 1e10 0 ]%float.

(** A zero mass, a negative mass and a negative time step. *)
Definition unphysical_masses : list float := [0; -1.5e27; 0.55e27]%float.
Definition negative_dt : float := (-0.25e4)%float.

(** A fourth body appended to the script's three. *)
Definition four_masses : list float := (Script.masses ++ [1e27])%float.
Definition four_positions : list (Vec3 float) :=
  Script.positions ++ [mkVec3 0 0 1e10]%float.
Definition four_velocities : list (Vec3 float) :=
  Script.velocities ++ [mkVec3 0 0 0]%float.

(** Four bodies in a row on the x-axis, one unit apart, of unit mass. *)
Definition row_masses : list R := [1; 1; 1; 1]%R.
Definition row_positions : list (Vec3 R) :=
  [ mkVec3 0 0 0; mkVec3 1 0 0; mkVec3 2 0 0; mkVec3 3 0 0 ]%R.

(** Three bodies, two of them 1e-110 apart: a distance that is not zero in
    binary64 and whose cube is below the smallest positive double. *)
Definition near_positions : list (Vec3 float) :=
  [ mkVec3 0 0 0; mkVec3 1e-110 0 0; mkVec3 0 1e10 0 ]%float.

(** The computed distance between bodies i and j is not zero. *)
Definition apart (pos : list (Vec3 float)) (i j : nat) : bool :=
  negb (PrimFloat.eqb (norm (vsub (nth j pos vzero) (nth i pos vzero))) 0).

(** The first two bodies of the script alone: two bodies, positive masses,
    arrays of matching lengths. *)
Definition pair_masses : list float := take 2 Script.masses.
Definition pair_positions : list (Vec3 float) := take 2 Script.positions.
Definition pair_velocities : list (Vec3 float) := take 2 Script.velocities.

Definition all_nan (v : Vec3 float) : bool :=
  is_nan (vx v) && is_nan (vy v) && is_nan (vz v).

(** ** Binary64 values that a zero separation produces *)

Definition sf_zero_or_nan (x : spec_float) : bool :=
  match x with
  | S754_zero _ | S754_nan => true
  | _ => false
  end.

(** x is +0, -0 or NaN *)
Definition zero_or_nan (x : float) : Prop := sf_zero_or_nan (Prim2SF x) = true.

(** x is NaN *)
Definition nan_float (x : float) : Prop := Prim2SF x = S754_nan.

Definition nan_row (v : Vec3 float) : Prop :=
  nan_float (vx v) /\ nan_float (vy v) /\ nan_float (vz v).

(** ** Positions that coincide in binary64 *)

(** Two coordinates hold the same number: they are the same float, or they
    compare equal ([==], under which +0 and -0 are the same number). *)
Definition same_number (x y : float) : Prop :=
  x = y \/ PrimFloat.eqb x y = true.

(** Two positions coincide: the same number in every coordinate. *)
Definition coincide (p q : Vec3 float) : Prop :=
  same_number (vx p) (vx q) /\ same_number (vy p) (vy q) /\
  same_number (vz p) (vz q).

(** Two of the three bodies at the same place, one at +0 and one at -0 in
    two coordinates. *)
Definition signed_zero_positions : list (Vec3 float) :=
  [ mkVec3 1e10 0 0; mkVec3 1e10 (-0) (-0); mkVec3 0 1e10 0 ]%float.

Definition signed_zero_store : Store float :=
  initial_store Script.masses signed_zero_positions Script.velocities 3.

(** * Beyond the claims: definitions *)

Section RunStatements.
Context {F : Type} `{Scalar F}.

(** What the integration acts on: the masses, positions and velocities. *)
Definition motion (s : Store F) : list F * list (Vec3 F) * list (Vec3 F) :=
  (masses s, positions s, velocities s).

End RunStatements.

Section ExactRunStatements.
Local Open Scope R_scope.

(** a × b *)
Definition vcross (a b : Vec3 R) : Vec3 R :=
  mkVec3 (vy a * vz b - vz a * vy b)
         (vz a * vx b - vx a * vz b)
         (vx a * vy b - vy a * vx b).

(** Σ_i masses[i] * (p[i] × v[i]) *)
Definition angular_momentum (ms : list R) (ps vs : list (Vec3 R)) : Vec3 R :=
  weighted_sum ms (zip_with vcross ps vs).

(** Every position moved by the same vector c. *)
Definition translate (c : Vec3 R) (ps : list (Vec3 R)) : list (Vec3 R) :=
  map (fun p => vadd p c) ps.

(** No two of the three bodies at the same place at any recorded step. *)
Definition never_coincident (steps : Z) (s : Store R) : Prop :=
  forall t i j p q,
    (t < Z.to_nat steps)%nat -> (i < 3)%nat -> (j < 3)%nat -> i <> j ->
    trajectory_at s i t = Some p -> trajectory_at s j t = Some q -> p <> q.

End ExactRunStatements.

(** Some component of v is NaN. *)
Definition has_nan (v : Vec3 float) : Prop :=
  nan_float (vx v) \/ nan_float (vy v) \/ nan_float (vz v).

(** * The framing and animation code

    Lines 102 to 112 compute the axis limits from the whole trajectory
    buffer; [update] (lines 133 to 175) slices the buffer up to the current
    frame; line 178 produces the frames.  The calls into matplotlib are not
    modelled: the definitions below are the values the script computes and
    passes to them. *)

(** The operations the plotting code adds to the scalars: the steps of the
    np.min and np.max reductions and the literals 2, 0.05 and 0.01. *)
Class PlotScalar (F : Type) : Type := {
  fmin : F -> F -> F;
  fmax : F -> F -> F;
  f_two : F;
  f_0_05 : F;
  f_0_01 : F
}.

#[export] Instance R_PlotScalar : PlotScalar R := {|
  fmin := Rmin;
  fmax := Rmax;
  f_two := 2%R;
  f_0_05 := 0.05%R;
  f_0_01 := 0.01%R
|}.

(** numpy's minimum and maximum: (a < b || isnan(a)) ? a : b and
    (a > b || isnan(a)) ? a : b, so a NaN on either side comes out. *)
#[export] Instance float_PlotScalar : PlotScalar float := {|
  fmin := fun a b => if (PrimFloat.ltb a b || is_nan a)%bool then a else b;
  fmax := fun a b => if (PrimFloat.ltb b a || is_nan a)%bool then a else b;
  f_two := 2%float;
  f_0_05 := 0.05%float;
  f_0_01 := 0.01%float
|}.

(** The limits of the three axes, each a pair (lower, upper). *)
Record Limits (F : Type) : Type := mkLimits {
  xlim : F * F;
  ylim : F * F;
  zlim : F * F
}.
Arguments mkLimits {F} _ _ _.
Arguments xlim {F} _.
Arguments ylim {F} _.
Arguments zlim {F} _.

Section Plot.
Context {F : Type} `{Scalar F} `{PlotScalar F}.
Local Open Scope scalar_scope.

(* a.reshape(-1, 3) for a of shape (bodies, steps, 3) *)
Definition reshape_rows (a : list (list (Vec3 F))) : list (Vec3 F) := concat a.

Definition vmin (a b : Vec3 F) : Vec3 F :=
  mkVec3 (fmin (vx a) (vx b)) (fmin (vy a) (vy b)) (fmin (vz a) (vz b)).
Definition vmax (a b : Vec3 F) : Vec3 F :=
  mkVec3 (fmax (vx a) (vx b)) (fmax (vy a) (vy b)) (fmax (vz a) (vz b)).

(* a.min(axis=0) and a.max(axis=0) for a of shape (N, 3); numpy refuses to
   reduce an array without rows *)
Definition amin (a : list (Vec3 F)) : Result (Vec3 F) :=
  match a with
  | [] => Raise ValueError
  | row :: rows => Ok (foldl vmin row rows)
  end.
Definition amax (a : list (Vec3 F)) : Result (Vec3 F) :=
  match a with
  | [] => Raise ValueError
  | row :: rows => Ok (foldl vmax row rows)
  end.

(** Lines 103 to 112: the limits passed to set_xlim, set_ylim, set_zlim. *)
Definition axis_limits (tr : list (list (Vec3 F))) : Result (Limits F) :=
  let all_xyz := reshape_rows tr in
  match amin all_xyz with
  | Raise e => Raise e
  | Ok mins =>
      match amax all_xyz with
      | Raise e => Raise e
      | Ok maxs =>
          let center := vdiv (vadd mins maxs) f_two in
          let max_range := vdiv (vsub maxs mins) f_two in
          Ok (mkLimits
                (vx center - vx max_range, vx center + vx max_range)
                (vy center - vy max_range, vy center + vy max_range)
                (vz center - vz max_range, vz center + vz max_range))
      end
  end.

(* a[:k] for a Python int k: a negative k counts from the end *)
Definition slice_to {A} (a : list A) (k : Z) : list A :=
  if (k <? 0)%Z then take (length a - Z.to_nat (- k)) a
  else take (Z.to_nat k) a.

(** Line 156: trail = trajectories[i, :frame] *)
Definition trail (tr : list (list (Vec3 F))) (i : nat) (frame : Z)
    : Result (list (Vec3 F)) :=
  match tr !! i with
  | Some body => Ok (slice_to body frame)
  | None => Raise IndexError
  end.

(** Lines 162 to 164: the marker of a body is set, to the last point of its
    trail, only when the trail is not empty. *)
Definition marker (tl : list (Vec3 F)) : option (Vec3 F) := last tl.

(** Lines 150 to 152: a projection plane, at the fraction [frac] of the way
    from the lower to the upper limit. *)
Definition plane (lim : F * F) (frac : F) : F :=
  fst lim + frac * (snd lim - fst lim).

End Plot.

(* range(start, stop, step) for step > 0 *)
Definition range_step (start stop step : Z) : list Z :=
  if (start <? stop)%Z
  then map (fun k => (start + Z.of_nat k * step)%Z)
           (seq 0 (Z.to_nat ((stop - start - 1) / step + 1)))
  else [].

(** Line 178: frames = range(0, steps, 25) *)
Definition frames (steps : Z) : list Z := range_step 0 steps 25.

(** p lies within the limits on every axis. *)
Definition inside (L : Limits R) (p : Vec3 R) : Prop :=
  (fst (xlim L) <= vx p <= snd (xlim L))%R /\
  (fst (ylim L) <= vy p <= snd (ylim L))%R /\
  (fst (zlim L) <= vz p <= snd (zlim L))%R.

(** The bound b is the coordinate f of some recorded point. *)
Definition attained (f : Vec3 R -> R) (rows : list (Vec3 R)) (b : R) : Prop :=
  exists q, q ∈ rows /\ f q = b.

(** ** Concrete inputs for the properties beyond the claims *)

(** The script's positions with one coordinate of the first body NaN. *)
Definition nan_positions : list (Vec3 float) :=
  [ mkVec3 nan 0 0; mkVec3 (-1e10) 0 0; mkVec3 0 1e10 0 ]%float.

Definition nan_store : Store float :=
  initial_store Script.masses nan_positions Script.velocities 3.

(** A displacement of the whole system. *)
Definition displacement : Vec3 R := (mkVec3 1 2 3)%R.

(** * Properties *)

Ltac list3 l H :=
  let a := fresh l "0" in let b := fresh l "1" in let c := fresh l "2" in
  destruct l as [|a [|b [|c [|? ?]]]]; cbn [length] in H; try lia; clear H.

Section Generic.
Context {F : Type} `{Scalar F}.
Local Open Scope scalar_scope.

Lemma compute_accelerations_rows p0 p1 p2 rest m0 m1 m2 mrest s :
  masses s = m0 :: m1 :: m2 :: mrest ->
  compute_accelerations (p0 :: p1 :: p2 :: rest) s =
    Ok ([acc_row (masses s) (p0 :: p1 :: p2 :: rest) 0;
         acc_row (masses s) (p0 :: p1 :: p2 :: rest) 1;
         acc_row (masses s) (p0 :: p1 :: p2 :: rest) 2]
        ++ replicate (length rest) vzero, s).
Proof.
  destruct s as [ms ps vs tr]; cbn [masses]; intros ->. reflexivity.
Qed.

Lemma compute_accelerations_short_pos pos s :
  length pos < 3 -> compute_accelerations pos s = Raise IndexError.
Proof.
  destruct s as [ms ps vs tr].
  destruct pos as [|p0 [|p1 [|p2 rest]]]; cbn [length]; intros Hlen;
    try lia; try reflexivity.
  destruct ms as [|m0 [|m1 ms]]; reflexivity.
Qed.

Lemma compute_accelerations_short_masses pos s :
  length (masses s) < 3 -> compute_accelerations pos s = Raise IndexError.
Proof.
  intros Hm.
  destruct (decide (length pos < 3)) as [Hp|Hp];
    [by apply compute_accelerations_short_pos|].
  destruct s as [ms ps vs tr]; cbn [masses] in Hm.
  destruct pos as [|p0 [|p1 [|p2 rest]]]; cbn [length] in Hp; try lia.
  destruct ms as [|m0 [|m1 [|m2 ms]]]; cbn [length] in Hm; try lia;
    reflexivity.
Qed.

Lemma rmo_ret {A} (a : A) : reads_masses_only (ret a : M F A).
Proof. by exists (fun _ => Ok a). Qed.

Lemma rmo_raise {A} e : reads_masses_only (raise e : M F A).
Proof. by exists (fun _ => Raise e). Qed.

Lemma rmo_read_masses : reads_masses_only (read masses : M F (list F)).
Proof. by exists (fun ms => Ok ms). Qed.

Lemma rmo_getitem {A} (a : list A) i :
  reads_masses_only (getitem a i : M F A).
Proof. unfold getitem. destruct (a !! i); [apply rmo_ret | apply rmo_raise]. Qed.

Lemma rmo_bind {A B} (c : M F A) (k : A -> M F B) :
  reads_masses_only c -> (forall a, reads_masses_only (k a)) ->
  reads_masses_only (bind c k).
Proof.
  intros [f Hf] Hk.
  (* the continuation's function is picked row by row of the first outcome *)
  exists (fun ms =>
    match f ms with
    | Ok a =>
        match k a (mkStore ms [] [] []) with
        | Ok (b, _) => Ok b
        | Raise e => Raise e
        end
    | Raise e => Raise e
    end).
  intros s. unfold bind. rewrite Hf. unfold lift at 1.
  destruct (f (masses s)) as [a|e]; [|done].
  destruct (Hk a) as [g Hg]. rewrite !Hg. cbn [masses].
  unfold lift. by destruct (g (masses s)).
Qed.

Lemma rmo_for_each {A S} (xs : list A) (body : A -> S -> M F S) st :
  (forall x st', reads_masses_only (body x st')) ->
  reads_masses_only (for_each xs body st).
Proof.
  intros Hbody. revert st.
  induction xs as [|x xs IH]; intros st; cbn [for_each].
  - apply rmo_ret.
  - apply rmo_bind; [apply Hbody | apply IH].
Qed.

Lemma rmo_compute_accelerations pos :
  reads_masses_only (compute_accelerations pos).
Proof.
  unfold compute_accelerations.
  apply rmo_for_each; intros i acc.
  apply rmo_for_each; intros j acc'.
  destruct (negb (i =? j)); [|apply rmo_ret].
  repeat (apply rmo_bind; [first [apply rmo_getitem | apply rmo_read_masses]|]; intros ?).
  apply rmo_ret.
Qed.

Lemma compute_accelerations_lift pos s :
  compute_accelerations pos s = lift (accelerations (masses s) pos) s.
Proof.
  destruct (rmo_compute_accelerations pos) as [f Hf].
  unfold accelerations. rewrite !Hf. cbn [masses].
  unfold lift. by destruct (f (masses s)).
Qed.

Lemma compute_accelerations_three pos s :
  length pos = 3 -> 3 <= length (masses s) ->
  compute_accelerations pos s = Ok (map (acc_row (masses s) pos) (range 3), s).
Proof.
  intros Hp Hm.
  destruct pos as [|p0 [|p1 [|p2 [|? ?]]]]; cbn [length] in Hp; try lia.
  destruct (masses s) as [|m0 [|m1 [|m2 mrest]]] eqn:Em;
    cbn [length] in Hm; try lia.
  rewrite (compute_accelerations_rows _ _ _ _ _ _ _ _ _ Em), Em. reflexivity.
Qed.

Lemma loop_body_shaped cap dt t s :
  shaped cap s -> t < cap ->
  loop_body dt t s = Ok (tt, next_store dt t s).
Proof.
  intros (Hp & Hv & Hm & Htr & Hcap) Ht.
  unfold loop_body, next_store.
  destruct s as [ms ps vs tr]; cbn [masses positions velocities trajectories] in *.
  list3 tr Htr. list3 ps Hp. list3 vs Hv.
  apply Forall_cons in Hcap as [H0 Hcap].
  apply Forall_cons in Hcap as [H1 Hcap].
  apply Forall_cons in Hcap as [H2 _].
  assert (Hlt : forall body : list (Vec3 F),
             length body = cap -> (t <? length body) = true)
    by (intros body <-; by apply Nat.ltb_lt).
  unfold bind at 1 2 3; cbn [read lift trajectories positions].
  unfold setitem_column; cbn [forallb]. rewrite !Hlt by done.
  cbn -[compute_accelerations].
  unfold bind at 1. rewrite compute_accelerations_three by done. reflexivity.
Qed.

Lemma next_store_shaped cap dt t s : shaped cap s -> shaped cap (next_store dt t s).
Proof.
  intros (Hp & Hv & Hm & Htr & Hcap).
  destruct s as [ms ps vs tr]; cbn [masses positions velocities trajectories] in *.
  list3 tr Htr. list3 ps Hp. list3 vs Hv.
  repeat split; cbn; try done.
  apply Forall_cons in Hcap as [H0 Hcap].
  apply Forall_cons in Hcap as [H1 Hcap].
  apply Forall_cons in Hcap as [H2 _].
  repeat constructor; by rewrite length_insert.
Qed.

Lemma loop_body_misshaped dt t s :
  length (trajectories s) = 3 ->
  length (positions s) <> 3 \/ length (velocities s) <> 3 \/
    length (masses s) < 3 ->
  exists e, loop_body dt t s = Raise e.
Proof.
  destruct s as [ms ps vs tr].
  cbn [masses positions velocities trajectories]; intros Htr Hbad.
  unfold loop_body.
  unfold bind at 1 2 3; cbn [read lift trajectories positions].
  unfold setitem_column.
  destruct (forallb _ _); [|by eexists].
  rewrite Htr. unfold broadcast_to.
  destruct (length ps =? 3) eqn:Hp.
  - (* three rows: the copy succeeds *)
    apply Nat.eqb_eq in Hp. cbn [lift write].
    unfold bind at 1 2 3; cbn [read write set_trajectories positions masses velocities].
    destruct (decide (length ms < 3)) as [Hm|Hm].
    + rewrite compute_accelerations_short_masses by done. by eexists.
    + rewrite compute_accelerations_three by (cbn; lia).
      cbn [masses]. unfold bind at 1 2; cbn [read lift velocities].
      unfold iadd, broadcast_to.
      destruct vs as [|v0 [|v1 [|v2 [|v3 vs]]]]; cbn [length] in Hbad;
        try lia; by eexists.
  - (* no rows or more than one: the copy fails; a single row is broadcast
       to all three bodies, then pos[1] fails *)
    destruct ps as [|p0 [|p1 ps]]; by eexists.
Qed.

Lemma for_each_loop_body cap dt a n s :
  shaped cap s -> a + n <= cap ->
  for_each (seq a n) (fun t _ => loop_body dt t) tt s =
    Ok (tt, iterate_from dt a n s).
Proof.
  revert a s. induction n as [|n IH]; intros a s Hs Hcap; [done|].
  cbn [seq for_each iterate_from]. unfold bind.
  rewrite (loop_body_shaped cap) by (done || lia).
  apply IH; [by apply next_store_shaped | lia].
Qed.

Lemma iterate_from_shaped cap dt a n s :
  shaped cap s -> shaped cap (iterate_from dt a n s).
Proof.
  revert a s. induction n as [|n IH]; intros a s Hs; [done|].
  cbn [iterate_from]. by apply IH, next_store_shaped.
Qed.

Lemma next_store_trajectory_ne cap dt t s i t' :
  shaped cap s -> t' <> t ->
  trajectory_at (next_store dt t s) i t' = trajectory_at s i t'.
Proof.
  intros (Hp & _ & _ & Htr & _) Hne. unfold trajectory_at, next_store.
  cbn [trajectories]. rewrite lookup_zip_with.
  destruct (trajectories s !! i) as [body|] eqn:Eb; cbn; [|done].
  destruct (positions s !! i) as [row|] eqn:Er; cbn.
  - by rewrite list_lookup_insert_ne.
  - apply lookup_lt_Some in Eb. apply lookup_ge_None in Er. lia.
Qed.

Lemma next_store_trajectory_eq cap dt t s i :
  shaped cap s -> t < cap -> i < 3 ->
  trajectory_at (next_store dt t s) i t = positions s !! i.
Proof.
  intros (Hp & _ & _ & Htr & Hcap) Ht Hi. unfold trajectory_at, next_store.
  cbn [trajectories]. rewrite lookup_zip_with.
  destruct (lookup_lt_is_Some_2 (trajectories s) i) as [body Eb]; [lia|].
  destruct (lookup_lt_is_Some_2 (positions s) i) as [row Er]; [lia|].
  rewrite Eb, Er. cbn.
  rewrite Forall_lookup in Hcap. specialize (Hcap _ _ Eb). cbn in Hcap.
  apply list_lookup_insert_eq. lia.
Qed.

Lemma iterate_from_trajectory_before cap dt a n s i t' :
  shaped cap s -> t' < a ->
  trajectory_at (iterate_from dt a n s) i t' = trajectory_at s i t'.
Proof.
  revert a s. induction n as [|n IH]; intros a s Hs Hlt; [done|].
  cbn [iterate_from]. rewrite IH by (by apply next_store_shaped || lia).
  apply (next_store_trajectory_ne cap); [done | lia].
Qed.

Lemma initial_store_shaped ms ps vs steps :
  length ps = 3 -> length vs = 3 -> 3 <= length ms ->
  shaped (Z.to_nat steps) (initial_store ms ps vs steps).
Proof.
  intros Hp Hv Hm. repeat split; cbn; try done.
  repeat constructor; apply length_replicate.
Qed.

Lemma too_big_three_bodies steps :
  (0 <= steps)%Z ->
  too_big [Z.of_nat 3; steps; 3%Z] = (max_intp <? 72 * steps)%Z.
Proof.
  intros Hsteps. unfold too_big. change (Z.of_nat 3) with 3%Z. cbn [foldl].
  change (3 =? 0)%Z with false. cbv iota. change (8 * 3)%Z with 24%Z.
  destruct (Z.eqb_spec steps 0) as [->|Hne]; [reflexivity|].
  f_equal. lia.
Qed.

Lemma np_zeros_fits steps :
  (0 <= steps)%Z -> (72 * steps <= max_intp)%Z ->
  np_zeros 3 steps = Ok (replicate 3 (replicate (Z.to_nat steps) vzero)).
Proof.
  intros Hsteps Hfits. unfold np_zeros.
  destruct (Z.ltb_spec steps 0) as [?|_]; [lia|].
  rewrite too_big_three_bodies by done.
  by destruct (Z.ltb_spec max_intp (72 * steps)) as [?|_]; [lia|].
Qed.

Lemma np_zeros_refused steps :
  (steps < 0)%Z \/ (max_intp < 72 * steps)%Z ->
  np_zeros 3 steps = Raise ValueError.
Proof.
  intros Hbad. unfold np_zeros.
  destruct (Z.ltb_spec steps 0) as [?|?]; [done|].
  rewrite too_big_three_bodies by done.
  by destruct (Z.ltb_spec max_intp (72 * steps)) as [_|?]; [|lia].
Qed.

Lemma np_zeros_Ok steps tr :
  np_zeros 3 steps = Ok tr ->
  (0 <= steps)%Z /\ (72 * steps <= max_intp)%Z /\
  tr = replicate 3 (replicate (Z.to_nat steps) vzero).
Proof.
  intros Halloc.
  destruct (Z.lt_ge_cases steps 0) as [Hneg|Hpos].
  { rewrite np_zeros_refused in Halloc by (by left). done. }
  destruct (Z.lt_ge_cases max_intp (72 * steps)) as [Hbig|Hfits].
  { rewrite np_zeros_refused in Halloc by (by right). done. }
  rewrite np_zeros_fits in Halloc by lia. injection Halloc as <-.
  repeat split; lia.
Qed.

Lemma simulate_shaped ms ps vs dt steps :
  length ps = 3 -> length vs = 3 -> 3 <= length ms ->
  (0 <= steps)%Z -> (72 * steps <= max_intp)%Z ->
  simulate ms ps vs dt steps =
    Ok (iterate_from dt 0 (Z.to_nat steps) (initial_store ms ps vs steps)).
Proof.
  intros Hp Hv Hm Hsteps Hfits. unfold simulate.
  rewrite np_zeros_fits by done. unfold main_loop, range_Z, range.
  fold (initial_store ms ps vs steps).
  by rewrite (for_each_loop_body (Z.to_nat steps))
    by (by apply initial_store_shaped || lia).
Qed.

Lemma simulate_refused ms ps vs dt steps :
  (steps < 0)%Z \/ (max_intp < 72 * steps)%Z ->
  simulate ms ps vs dt steps = Raise ValueError.
Proof. intros Hbad. unfold simulate. by rewrite np_zeros_refused. Qed.

Lemma simulate_zero_steps ms ps vs dt :
  simulate ms ps vs dt 0 = Ok (initial_store ms ps vs 0).
Proof. reflexivity. Qed.

Lemma simulate_misshaped ms ps vs dt steps :
  (0 < steps)%Z ->
  length ps <> 3 \/ length vs <> 3 \/ length ms < 3 ->
  exists e, simulate ms ps vs dt steps = Raise e.
Proof.
  intros Hsteps Hbad. unfold simulate.
  destruct (np_zeros 3 steps) as [tr|e] eqn:Halloc; [|by eexists].
  apply np_zeros_Ok in Halloc as (_ & _ & ->).
  unfold main_loop, range_Z, range.
  destruct (Z.to_nat steps) as [|n] eqn:En; [lia|].
  cbn [seq for_each]. unfold bind.
  edestruct (loop_body_misshaped dt 0) as [e ->]; [| |by eexists]; done.
Qed.

(** What a completed run tells: the buffer was allocated, the store is the
    one the iterations lead to, and, when at least one iteration ran, the
    arrays had the script's shapes. *)
Lemma simulate_Ok_inv ms ps vs dt steps out :
  simulate ms ps vs dt steps = Ok out ->
  (0 <= steps)%Z /\ (72 * steps <= max_intp)%Z /\
  out = iterate_from dt 0 (Z.to_nat steps) (initial_store ms ps vs steps) /\
  ((0 < steps)%Z -> length ps = 3 /\ length vs = 3 /\ 3 <= length ms).
Proof.
  intros Hrun.
  assert (Halloc : (0 <= steps)%Z /\ (72 * steps <= max_intp)%Z).
  { revert Hrun. unfold simulate.
    destruct (np_zeros 3 steps) as [tr|e] eqn:Halloc; [|done].
    apply np_zeros_Ok in Halloc. tauto. }
  destruct Halloc as [Hsteps Hfits].
  assert (Hshape : (0 < steps)%Z ->
            length ps = 3 /\ length vs = 3 /\ 3 <= length ms).
  { intros Hpos.
    destruct (decide (length ps = 3)) as [Hp|Hp]; cycle 1.
    { destruct (simulate_misshaped ms ps vs dt steps) as [e He];
        [done | by left | congruence]. }
    destruct (decide (length vs = 3)) as [Hv|Hv]; cycle 1.
    { destruct (simulate_misshaped ms ps vs dt steps) as [e He];
        [done | by right; left | congruence]. }
    destruct (decide (length ms < 3)) as [Hm|Hm].
    { destruct (simulate_misshaped ms ps vs dt steps) as [e He];
        [done | by right; right | congruence]. }
    repeat split; lia. }
  repeat split; try tauto.
  destruct (Z.eq_dec steps 0%Z) as [->|Hne].
  - rewrite simulate_zero_steps in Hrun. by injection Hrun as <-.
  - destruct Hshape as (Hp & Hv & Hm); [lia|].
    rewrite simulate_shaped in Hrun by done. by injection Hrun as <-.
Qed.

Lemma compute_accelerations_store pos s acc s' :
  compute_accelerations pos s = Ok (acc, s') -> s' = s.
Proof.
  rewrite compute_accelerations_lift. unfold lift.
  destruct (accelerations (masses s) pos); [|done]. by intros [= _ <-].
Qed.

Lemma bind_Ok {A B} (c : M F A) (k : A -> M F B) s b s'' :
  bind c k s = Ok (b, s'') ->
  exists a s', c s = Ok (a, s') /\ k a s' = Ok (b, s'').
Proof. unfold bind. destruct (c s) as [[a s']|e]; [eauto | done]. Qed.

Lemma lift_Ok {A} (r : Result A) (s : Store F) a s' :
  lift r s = Ok (a, s') -> r = Ok a /\ s' = s.
Proof. unfold lift. destruct r; [|done]. by intros [= -> ->]. Qed.

Lemma loop_body_masses dt t s u s' :
  loop_body dt t s = Ok (u, s') -> masses s' = masses s.
Proof.
  unfold loop_body. intros Hrun.
  repeat match type of Hrun with
  | bind _ _ _ = Ok _ =>
      let a := fresh "a" in let s1 := fresh "s" in
      let H1 := fresh "H" in
      apply bind_Ok in Hrun as (a & s1 & H1 & Hrun)
  end.
  repeat match goal with
  | H : read _ _ = Ok _ |- _ => injection H as <- <-
  | H : write _ _ = Ok _ |- _ => injection H as <- <-
  | H : lift _ _ = Ok _ |- _ => apply lift_Ok in H as [? ->]
  | H : compute_accelerations _ _ = Ok _ |- _ =>
      apply compute_accelerations_store in H as ->
  end.
  reflexivity.
Qed.

Lemma for_each_loop_body_masses dt ts s u s' :
  for_each ts (fun t _ => loop_body dt t) tt s = Ok (u, s') ->
  masses s' = masses s.
Proof.
  revert s. induction ts as [|t ts IH]; intros s; cbn [for_each].
  - by intros [= _ <-].
  - intros Hrun. apply bind_Ok in Hrun as (a & s1 & H1 & Hrun).
    apply loop_body_masses in H1. destruct a. apply IH in Hrun. congruence.
Qed.

(** ** The claims that hold for every scalar type *)

(** C2.  One iteration of the main loop, from a store of the script's shapes
    and a step index [t] inside the trajectory buffer, completes, and its
    effects are, for every body [i]: the position held before the iteration
    is what [trajectories[i, t]] holds after it; the accelerations are those
    [compute_accelerations] returns for the positions held before the
    iteration, all rows from that one snapshot; the new velocity is the old
    one plus acceleration times [dt]; the new position is the old one plus
    the new velocity times [dt]. *)
Theorem loop_body_step_order cap dt t s :
  shaped cap s -> t < cap ->
  exists acc s',
    compute_accelerations (positions s) s = Ok (acc, s) /\
    loop_body dt t s = Ok (tt, s') /\
    forall i, i < 3 ->
      exists p v a,
        positions s !! i = Some p /\ velocities s !! i = Some v /\
        acc !! i = Some a /\
        trajectory_at s' i t = Some p /\
        velocities s' !! i = Some (vadd v (vmul a dt)) /\
        positions s' !! i = Some (vadd p (vmul (vadd v (vmul a dt)) dt)).
Proof.
  intros Hs Ht.
  exists (map (acc_row (masses s) (positions s)) (range 3)), (next_store dt t s).
  pose proof (next_store_trajectory_eq cap dt t s) as Htraj.
  destruct Hs as (Hp & Hv & Hm & Htr & Hcap).
  split; [by apply compute_accelerations_three|].
  split; [by apply (loop_body_shaped cap)|].
  intros i Hi. rewrite Htraj by done. clear Htraj.
  unfold next_store; cbn [positions velocities].
  destruct (positions s) as [|p0 [|p1 [|p2 [|? ?]]]] eqn:Eps;
    cbn [length] in Hp; try lia.
  destruct (velocities s) as [|v0 [|v1 [|v2 [|? ?]]]] eqn:Evs;
    cbn [length] in Hv; try lia.
  destruct i as [|[|[|i]]]; [| | |lia]; do 3 eexists; by repeat split.
Qed.

(** C6, as the code has it.  Whenever a run of at least one step completes,
    the positions had exactly three rows, and the trajectory entry at step 0
    of every body is that body's initial position. *)
Theorem trajectory_step0_initial ms ps vs dt steps out :
  (0 < steps)%Z ->
  simulate ms ps vs dt steps = Ok out ->
  length ps = 3 /\
  forall i, i < 3 -> trajectory_at out i 0 = ps !! i.
Proof.
  intros Hsteps Hrun.
  apply simulate_Ok_inv in Hrun as (_ & _ & -> & Hshape).
  destruct (Hshape Hsteps) as (Hp & Hv & Hm). split; [done|].
  intros i Hi.
  pose proof (initial_store_shaped ms ps vs steps Hp Hv Hm) as Hs.
  destruct (Z.to_nat steps) as [|n] eqn:En; [lia|].
  cbn [iterate_from].
  rewrite (iterate_from_trajectory_before (S n))
    by (by apply next_store_shaped || lia).
  by rewrite (next_store_trajectory_eq (S n)) by (done || lia).
Qed.

(** C8.  [compute_accelerations] returns the store it was given, so the
    positions array and the masses array are unchanged by the call; the
    value it returns is the same in any two stores with the same masses, so
    it depends only on the snapshot passed to it and on the mass vector; and
    the masses after any number of iterations of the main loop, and at the
    end of a run, are the masses it started with. *)
Theorem compute_accelerations_frame :
  (forall pos s acc s',
     compute_accelerations pos s = Ok (acc, s') ->
     s' = s /\ positions s' = positions s /\ masses s' = masses s) /\
  (forall pos s1 s2,
     masses s1 = masses s2 ->
     value_of (compute_accelerations pos s1) =
     value_of (compute_accelerations pos s2)) /\
  (forall dt ts s s',
     for_each ts (fun t _ => loop_body dt t) tt s = Ok (tt, s') ->
     masses s' = masses s) /\
  (forall ms ps vs dt steps out,
     simulate ms ps vs dt steps = Ok out -> masses out = ms).
Proof.
  split; [|split; [|split]].
  - intros pos s acc s' Hrun.
    by apply compute_accelerations_store in Hrun as ->.
  - intros pos s1 s2 Hms. rewrite !compute_accelerations_lift, Hms.
    unfold lift, value_of. by destruct (accelerations (masses s2) pos).
  - intros dt ts s s'. apply for_each_loop_body_masses.
  - intros ms ps vs dt steps out. unfold simulate.
    destruct (np_zeros 3 steps) as [tr|e]; [|done].
    destruct (main_loop _ _ _) as [[[] s']|e] eqn:Hloop; [|done].
    intros [= <-]. by apply for_each_loop_body_masses in Hloop.
Qed.

(** C4, as the code has it.  The script checks nothing about its initial
    conditions and has no error of its own.  The only check on [steps] is
    numpy's at the allocation of the trajectory buffer, before the loop:
    ValueError when [steps] is negative or the buffer of 72 * [steps] bytes
    is too big to index.  A run of at least one step fails when the
    positions or the velocities do not have exactly three rows or there are
    fewer than three masses.  Whether a run fails does not depend on the
    values of the masses or of [dt], and with [steps = 0] every input is
    accepted. *)
Theorem simulate_validates_nothing ms ps vs dt steps :
  ((steps < 0)%Z \/ (max_intp < 72 * steps)%Z ->
   simulate ms ps vs dt steps = Raise ValueError) /\
  ((0 < steps)%Z ->
   length ps <> 3 \/ length vs <> 3 \/ length ms < 3 ->
   is_ok (simulate ms ps vs dt steps) = false) /\
  (forall ms' dt',
     length ms' = length ms ->
     is_ok (simulate ms' ps vs dt' steps) = is_ok (simulate ms ps vs dt steps)) /\
  is_ok (simulate ms ps vs dt 0) = true.
Proof.
  split; [apply simulate_refused|]. split; [|split; [|done]].
  - intros Hpos Hbad.
    by destruct (simulate_misshaped ms ps vs dt steps Hpos Hbad) as [e ->].
  - intros ms' dt' Hlen.
    destruct (Z.lt_ge_cases steps 0) as [Hneg|Hsteps].
    { by rewrite !simulate_refused by (by left). }
    destruct (Z.lt_ge_cases max_intp (72 * steps)) as [Hbig|Hfits].
    { by rewrite !simulate_refused by (by right). }
    destruct (Z.eq_dec steps 0%Z) as [->|Hne]; [done|].
    destruct (decide (length ps <> 3 \/ length vs <> 3 \/ length ms < 3))
      as [Hbad|Hgood].
    + destruct (simulate_misshaped ms ps vs dt steps) as [e ->]; [lia|done|].
      destruct (simulate_misshaped ms' ps vs dt' steps) as [e' ->];
        [lia | by rewrite Hlen | done].
    + rewrite !simulate_shaped by lia. done.
Qed.

Lemma accelerations_short_pos ms pos :
  length pos < 3 -> accelerations ms pos = Raise IndexError.
Proof.
  intros Hlen. unfold accelerations.
  by rewrite compute_accelerations_short_pos.
Qed.

Lemma accelerations_short_masses ms pos :
  length ms < 3 -> accelerations ms pos = Raise IndexError.
Proof.
  intros Hlen. unfold accelerations.
  by rewrite compute_accelerations_short_masses.
Qed.

Lemma accelerations_first_three ms ms' pos pos' :
  take 3 ms = take 3 ms' -> take 3 pos = take 3 pos' ->
  first_three (accelerations ms pos) = first_three (accelerations ms' pos').
Proof.
  intros Hms Hpos.
  assert (Hlm : 3 `min` length ms = 3 `min` length ms')
    by (by rewrite <- !length_take, Hms).
  assert (Hlp : 3 `min` length pos = 3 `min` length pos')
    by (by rewrite <- !length_take, Hpos).
  destruct (decide (length pos < 3)) as [Hp|Hp].
  { rewrite !accelerations_short_pos by lia. done. }
  destruct (decide (length ms < 3)) as [Hm|Hm].
  { rewrite !accelerations_short_masses by lia. done. }
  destruct pos as [|p0 [|p1 [|p2 rest]]]; cbn [length] in Hp; try lia.
  destruct pos' as [|q0 [|q1 [|q2 rest']]]; cbn [length] in Hlp; try lia.
  destruct ms as [|m0 [|m1 [|m2 mrest]]]; cbn [length] in Hm; try lia.
  destruct ms' as [|n0 [|n1 [|n2 mrest']]]; cbn [length] in Hlm; try lia.
  cbn [take] in Hms, Hpos.
  injection Hms as -> -> ->. injection Hpos as -> -> ->.
  reflexivity.
Qed.

(** C10, as the code has it.  [compute_accelerations] is fixed to the body
    indices 0, 1, 2: its outcome restricted to the first three rows (the
    exception, or rows 0 to 2 of the result) is determined by the first
    three rows of the positions and the first three masses; the result has
    as many rows as the snapshot and every row from index 3 on is zero.  The
    trajectory buffer of a completed run holds exactly three bodies.  The
    main loop does not cut larger inputs down to three bodies: a run of at
    least one step completes only when the positions and the velocities have
    exactly three rows. *)
Theorem three_bodies_hard_coded :
  (forall pos pos' s s',
     take 3 pos = take 3 pos' -> take 3 (masses s) = take 3 (masses s') ->
     first_three (value_of (compute_accelerations pos s)) =
     first_three (value_of (compute_accelerations pos' s'))) /\
  (forall pos s acc s',
     compute_accelerations pos s = Ok (acc, s') ->
     length acc = length pos /\
     forall i, 3 <= i < length pos -> acc !! i = Some vzero) /\
  (forall ms ps vs dt steps out,
     simulate ms ps vs dt steps = Ok out ->
     length (trajectories out) = 3 /\
     ((0 < steps)%Z ->
      length ps = 3 /\ length vs = 3 /\
      length (positions out) = 3 /\ length (velocities out) = 3)).
Proof.
  split; [|split].
  - intros pos pos' s s' Hpos Hms.
    rewrite !compute_accelerations_lift.
    pose proof (accelerations_first_three _ _ _ _ Hms Hpos) as Hacc.
    unfold lift, value_of.
    by destruct (accelerations (masses s) pos),
                (accelerations (masses s') pos').
  - intros pos s acc s' Hrun.
    destruct (decide (length pos < 3)) as [Hp|Hp].
    { by rewrite compute_accelerations_short_pos in Hrun. }
    destruct (decide (length (masses s) < 3)) as [Hm|Hm].
    { by rewrite compute_accelerations_short_masses in Hrun. }
    destruct pos as [|p0 [|p1 [|p2 rest]]]; cbn [length] in Hp; try lia.
    destruct (masses s) as [|m0 [|m1 [|m2 mrest]]] eqn:Em;
      cbn [length] in Hm; try lia.
    rewrite (compute_accelerations_rows _ _ _ _ _ _ _ _ _ Em) in Hrun.
    injection Hrun as <- _. split.
    + cbn [length app]. by rewrite length_replicate.
    + intros i [Hi Hlen]. cbn [length] in Hlen.
      destruct i as [|[|[|i]]]; try lia. cbn.
      apply lookup_replicate_2. lia.
  - intros ms ps vs dt steps out Hrun.
    apply simulate_Ok_inv in Hrun as (Hsteps & _ & -> & Hshape).
    destruct (Z.eq_dec steps 0%Z) as [->|Hne]; [split; [done | lia]|].
    destruct Hshape as (Hp & Hv & Hm); [lia|].
    destruct (iterate_from_shaped (Z.to_nat steps) dt 0 (Z.to_nat steps)
                (initial_store ms ps vs steps))
      as (? & ? & ? & ? & ?); [by apply initial_store_shaped|].
    done.
Qed.

End Generic.

(** ** The claims about exact arithmetic *)

Ltac scalar_unfold :=
  cbn [fadd fsub fmul fdiv fsqrt fpow fzero R_Scalar vx vy vz
       vadd vsub smul vmul vdiv vzero].

Section Exact.
Local Open Scope R_scope.

Lemma Vec3_eq (a b : Vec3 R) :
  vx a = vx b -> vy a = vy b -> vz a = vz b -> a = b.
Proof. destruct a, b; cbn; congruence. Qed.

(** C1, as the code has it.  In exact arithmetic, for a snapshot of exactly
    three bodies with three masses in which all pairwise distances are
    nonzero, [compute_accelerations] returns, and row i of its result is
    G * Σ_{j≠i} mass[j] * (pos[j] - pos[i]) / |pos[j] - pos[i]|³ for every
    body index i, with G = 6.67430e-11. *)
Theorem compute_accelerations_newtonian (s : Store R) (pos : list (Vec3 R)) :
  length pos = 3%nat -> length (masses s) = 3%nat ->
  (forall i j, (i < 3)%nat -> (j < 3)%nat -> i <> j ->
     norm (vsub (nth j pos vzero) (nth i pos vzero)) <> 0) ->
  G = 6.67430e-11 /\
  exists acc,
    compute_accelerations pos s = Ok (acc, s) /\
    length acc = 3%nat /\
    forall i, (i < 3)%nat ->
      acc !! i = Some (newtonian_acceleration (masses s) pos i).
Proof.
  intros Hp Hm _. split; [reflexivity|].
  eexists. split; [apply compute_accelerations_three; lia|]. split; [done|].
  intros i Hi.
  destruct pos as [|p0 [|p1 [|p2 [|? ?]]]]; cbn [length] in Hp; try lia.
  destruct (masses s) as [|m0 [|m1 [|m2 [|? ?]]]]; cbn [length] in Hm; try lia.
  destruct i as [|[|[|i]]]; [| | |lia];
    cbn [map range seq lookup list_lookup]; f_equal;
    unfold newtonian_acceleration, acc_row, pull, vsum;
    cbn [length seq List.filter Nat.eqb negb range map foldr nth];
    apply Vec3_eq; scalar_unfold; unfold Rdiv; ring.
Qed.

Lemma norm_vsub_sym (a b : Vec3 R) : norm (vsub a b) = norm (vsub b a).
Proof. unfold norm. scalar_unfold. f_equal. ring. Qed.

Lemma weighted_sum_acc_rows m0 m1 m2 p0 p1 p2 :
  weighted_sum [m0; m1; m2]
    (map (acc_row [m0; m1; m2] [p0; p1; p2]) (range 3)) = vzero.
Proof.
  unfold weighted_sum, vsum, acc_row, pull.
  cbn [length seq List.filter Nat.eqb negb range map foldr nth zip_with].
  rewrite (norm_vsub_sym p0 p1), (norm_vsub_sym p0 p2), (norm_vsub_sym p1 p2).
  apply Vec3_eq; scalar_unfold; unfold Rdiv; ring.
Qed.

(** C9.  In exact arithmetic, for three bodies at pairwise distinct
    positions, the mass-weighted sum of the accelerations
    [compute_accelerations] returns is the zero vector, and one iteration of
    the main loop leaves the total momentum Σ_i masses[i] * v[i] as it was. *)
Theorem momentum_preserved (cap : nat) (dt : R) (t : nat) (s : Store R) :
  shaped cap s -> length (masses s) = 3%nat -> (t < cap)%nat ->
  (forall i j, (i < 3)%nat -> (j < 3)%nat -> i <> j ->
     nth i (positions s) vzero <> nth j (positions s) vzero) ->
  exists acc s',
    compute_accelerations (positions s) s = Ok (acc, s) /\
    weighted_sum (masses s) acc = vzero /\
    loop_body dt t s = Ok (tt, s') /\
    weighted_sum (masses s') (velocities s') =
    weighted_sum (masses s) (velocities s).
Proof.
  intros Hs Hm Ht _.
  exists (map (acc_row (masses s) (positions s)) (range 3)), (next_store dt t s).
  pose proof (loop_body_shaped cap dt t s Hs Ht) as Hbody.
  destruct Hs as (Hp & Hv & _ & _ & _).
  split; [apply compute_accelerations_three; lia|].
  destruct s as [ms ps vs tr]; cbn [masses positions velocities] in *.
  destruct ps as [|p0 [|p1 [|p2 [|? ?]]]]; cbn [length] in Hp; try lia.
  destruct vs as [|v0 [|v1 [|v2 [|? ?]]]]; cbn [length] in Hv; try lia.
  destruct ms as [|m0 [|m1 [|m2 [|? ?]]]]; cbn [length] in Hm; try lia.
  pose proof (weighted_sum_acc_rows m0 m1 m2 p0 p1 p2) as Hzero.
  split; [done|]. split; [done|].
  unfold next_store; cbn [masses positions velocities].
  cbn [map range seq] in *.
  set (a0 := acc_row _ _ 0%nat) in *.
  set (a1 := acc_row _ _ 1%nat) in *.
  set (a2 := acc_row _ _ 2%nat) in *.
  clearbody a0 a1 a2. clear Hbody.
  unfold weighted_sum, vsum, amul in *. cbn [map zip_with foldr] in *.
  injection Hzero as Hx Hy Hz. revert Hx Hy Hz. scalar_unfold.
  intros Hx Hy Hz.
  (* each component changes by dt times the weighted acceleration sum *)
  apply Vec3_eq; scalar_unfold;
    match goal with
    | |- ?L = ?R =>
        first [ match type of Hx with ?e = _ =>
                  replace L with (R + dt * e) by ring; rewrite Hx; ring end
              | match type of Hy with ?e = _ =>
                  replace L with (R + dt * e) by ring; rewrite Hy; ring end
              | match type of Hz with ?e = _ =>
                  replace L with (R + dt * e) by ring; rewrite Hz; ring end ]
    end.
Qed.

(** C7 fails on the code: the script is fixed to three bodies, and with the
    two-row arrays of the scenario the first iteration stops at
    [trajectories[:, t] = positions], which cannot copy two rows into the
    three-body slice. *)
Lemma two_body_scenario_raises :
  simulate two_body_masses two_body_positions two_body_velocities 100 1
  = Raise ValueError.
Proof. reflexivity. Qed.

(** C7, as the code has it.  With the two bodies of the scenario and, as the
    third body the script requires, a body of mass 0 at rest at (0, 1e10, 0),
    one step of 100 s completes, and the velocities of the two bodies then
    have zero y- and z-components and x-components of opposite sign and of
    the same nonzero magnitude G*1e27/(2e10)² * 100, each body moving
    towards the other. *)
Theorem two_body_scenario_with_massless_third :
  exists out,
    simulate (two_body_masses ++ [0])
             (two_body_positions ++ [mkVec3 0 1e10 0])
             (two_body_velocities ++ [mkVec3 0 0 0]) 100 1 = Ok out /\
    velocities out !! 0%nat = Some (mkVec3 (- (G * 1e27 / 2e10 ^ 2 * 100)) 0 0) /\
    velocities out !! 1%nat = Some (mkVec3 (G * 1e27 / 2e10 ^ 2 * 100) 0 0) /\
    G * 1e27 / 2e10 ^ 2 * 100 <> 0.
Proof.
  eexists. split; [apply simulate_shaped; (done || (unfold max_intp; lia))|].
  assert (Hd : forall x : R, Rabs x = 2e10 ->
            sqrt (x * x + (0 - 0) * (0 - 0) + (0 - 0) * (0 - 0)) = 2e10).
  { intros x Hx. replace (x * x + _ + _) with (Rsqr x) by (unfold Rsqr; ring).
    by rewrite sqrt_Rsqr_abs. }
  change (Z.to_nat 1) with 1%nat.
  cbn [iterate_from next_store
       initial_store masses positions velocities app two_body_masses
       two_body_positions two_body_velocities range seq map amul zip_with
       lookup list_lookup].
  unfold acc_row, pull.
  cbn [length seq List.filter Nat.eqb negb range map foldr nth].
  unfold norm. scalar_unfold.
  rewrite !Hd by (unfold Rabs; destruct (Rcase_abs _); lra).
  (* the pulls of the massless body vanish whatever its distance *)
  assert (Hzero : forall r d : R, G * 0 * r / d = 0)
    by (intros r d; unfold Rdiv; ring).
  repeat split; try (f_equal; apply Vec3_eq; scalar_unfold;
                     rewrite !Hzero; cbn [G R_Scalar]; lra).
  cbn [G R_Scalar]. lra.
Qed.

End Exact.

(** ** Coincident positions in binary64 *)

Section Binary64.
Local Open Scope float_scope.

Lemma nan_float_is_nan x : nan_float x -> is_nan x = true.
Proof.
  unfold nan_float, is_nan. rewrite FloatAxioms.eqb_spec. by intros ->.
Qed.

Lemma sub_self_zero_or_nan x : zero_or_nan (x - x).
Proof.
  unfold zero_or_nan. rewrite sub_spec.
  destruct (Prim2SF x) as [[]|[]| |s m e]; try reflexivity.
  unfold SF64sub, SFsub. by rewrite Z.sub_diag.
Qed.

Lemma mul_zero_or_nan_r k r : zero_or_nan r -> zero_or_nan (k * r).
Proof.
  unfold zero_or_nan. rewrite mul_spec.
  destruct (Prim2SF k), (Prim2SF r); cbn; congruence.
Qed.

Lemma add_zero_or_nan a b :
  zero_or_nan a -> zero_or_nan b -> zero_or_nan (a + b).
Proof.
  unfold zero_or_nan. rewrite add_spec.
  destruct (Prim2SF a) as [[]|[]| |], (Prim2SF b) as [[]|[]| |]; cbn; congruence.
Qed.

Lemma sqrt_zero_or_nan a : zero_or_nan a -> zero_or_nan (PrimFloat.sqrt a).
Proof.
  unfold zero_or_nan. rewrite sqrt_spec.
  destruct (Prim2SF a) as [[]|[]| |]; cbn; congruence.
Qed.

Lemma div_zero_or_nan n d : zero_or_nan n -> zero_or_nan d -> nan_float (n / d).
Proof.
  unfold zero_or_nan, nan_float. rewrite div_spec.
  destruct (Prim2SF n) as [[]|[]| |], (Prim2SF d) as [[]|[]| |]; cbn; congruence.
Qed.

Lemma add_nan_r a b : nan_float b -> nan_float (a + b).
Proof.
  unfold nan_float. rewrite add_spec. intros ->.
  by destruct (Prim2SF a) as [[]|[]| |].
Qed.

Lemma add_nan_l a b : nan_float a -> nan_float (a + b).
Proof. unfold nan_float. rewrite add_spec. by intros ->. Qed.

Lemma mul_nan_l a k : nan_float a -> nan_float (a * k).
Proof. unfold nan_float. rewrite mul_spec. by intros ->. Qed.

Lemma nan_row_all_nan v : nan_row v -> all_nan v = true.
Proof.
  intros (Hx & Hy & Hz). unfold all_nan.
  by rewrite !nan_float_is_nan.
Qed.

Lemma vadd_nan_r (a b : Vec3 float) : nan_row b -> nan_row (vadd a b).
Proof. intros (Hx & Hy & Hz). repeat split; by apply add_nan_r. Qed.

Lemma vadd_nan_l (a b : Vec3 float) : nan_row a -> nan_row (vadd a b).
Proof. intros (Hx & Hy & Hz). repeat split; by apply add_nan_l. Qed.

Lemma vmul_nan (a : Vec3 float) k : nan_row a -> nan_row (vmul a k).
Proof. intros (Hx & Hy & Hz). repeat split; by apply mul_nan_l. Qed.

Lemma SFeqb_finite sx mx ex sy my ey :
  SFeqb (S754_finite sx mx ex) (S754_finite sy my ey) = true ->
  sx = sy /\ mx = my /\ ex = ey.
Proof.
  unfold SFeqb, SFcompare.
  change (Pos.compare_cont Eq mx my) with (Pos.compare mx my).
  destruct sx, sy; try discriminate;
    destruct (Z.compare_spec ex ey) as [->| |]; try discriminate;
    destruct (Pos.compare_spec mx my) as [->| |]; try discriminate; done.
Qed.

Lemma sub_same_number x y : same_number x y -> zero_or_nan (x - y).
Proof.
  intros [->|Heq]; [apply sub_self_zero_or_nan|].
  unfold zero_or_nan. rewrite FloatAxioms.eqb_spec in Heq. rewrite sub_spec.
  destruct (Prim2SF x) as [sx|sx| |sx mx ex], (Prim2SF y) as [sy|sy| |sy my ey];
    try discriminate; try (by destruct sx, sy);
    try (by destruct sx); try (by destruct sy).
  (* two finite numbers that compare equal have the same sign, mantissa and
     exponent *)
  apply SFeqb_finite in Heq as (-> & -> & ->).
  unfold SF64sub, SFsub. by rewrite Z.sub_diag.
Qed.

Lemma same_number_sym x y : same_number x y -> same_number y x.
Proof.
  intros [->|Heq]; [by left | right].
  rewrite FloatAxioms.eqb_spec in *.
  destruct (Prim2SF x) as [sx|sx| |sx mx ex], (Prim2SF y) as [sy|sy| |sy my ey];
    try discriminate; try done;
    try (by destruct sx, sy); try (by destruct sx); try (by destruct sy).
  pose proof Heq as Hsame. apply SFeqb_finite in Hsame as (-> & -> & ->).
  exact Heq.
Qed.

Lemma coincide_sym p q : coincide p q -> coincide q p.
Proof. intros (Hx & Hy & Hz). repeat split; by apply same_number_sym. Qed.

(** The pull between two bodies at the same position: 0/0 or worse. *)
Lemma pull_coincident ms (pos : list (Vec3 float)) i j :
  coincide (nth j pos vzero) (nth i pos vzero) -> nan_row (pull ms pos i j).
Proof.
  intros (Hx & Hy & Hz). unfold pull.
  set (p := nth i pos vzero) in *. set (q := nth j pos vzero) in *.
  apply sub_same_number in Hx, Hy, Hz.
  assert (Hd : zero_or_nan (norm (vsub q p) ** 3)%sc).
  { cbn. apply mul_zero_or_nan_r, mul_zero_or_nan_r, sqrt_zero_or_nan.
    repeat apply add_zero_or_nan; by apply mul_zero_or_nan_r. }
  repeat split; cbn [vx vy vz vdiv smul vsub]; apply div_zero_or_nan;
    try exact Hd; by apply mul_zero_or_nan_r.
Qed.

Lemma acc_row_coincident ms (pos : list (Vec3 float)) i j :
  i < 3 -> j < 3 -> i <> j ->
  coincide (nth j pos vzero) (nth i pos vzero) -> nan_row (acc_row ms pos i).
Proof.
  intros Hi Hj Hij Heq.
  pose proof (pull_coincident ms pos i j Heq) as Hpull.
  destruct i as [|[|[|i]]], j as [|[|[|j]]]; try lia; unfold acc_row;
    cbn [range seq List.filter Nat.eqb negb];
    first [ by apply vadd_nan_r | by apply vadd_nan_l, vadd_nan_r ].
Qed.

(** C3, as the code has it.  Coincident positions are not detected.  From
    any store of the script's shapes in which two of the three bodies are at
    the same position (the same number in every coordinate, +0 and -0 being
    the same number), in binary64, [compute_accelerations] and the whole
    loop iteration raise nothing; every component of the accelerations of
    the two bodies is NaN, and so is every component of their velocities and
    positions after the iteration.  The iterations that remain, up to the
    end of the trajectory buffer, all complete. *)
Theorem coincident_positions_not_detected
    (cap : nat) (dt : float) (t : nat) (s : Store float) (i j : nat)
    (p q : Vec3 float) :
  shaped cap s -> (t < cap)%nat ->
  (i < 3)%nat -> (j < 3)%nat -> i <> j ->
  positions s !! i = Some p -> positions s !! j = Some q -> coincide p q ->
  (exists acc s',
     compute_accelerations (positions s) s = Ok (acc, s) /\
     loop_body dt t s = Ok (tt, s') /\
     forall k, k = i \/ k = j ->
       exists a v p,
         acc !! k = Some a /\ velocities s' !! k = Some v /\
         positions s' !! k = Some p /\
         all_nan a = true /\ all_nan v = true /\ all_nan p = true) /\
  is_ok (for_each (seq t (cap - t)) (fun t' _ => loop_body dt t') tt s) = true.
Proof.
  intros Hs Ht Hi Hj Hij Hpi Hqj Heq.
  pose proof (loop_body_shaped cap dt t s Hs Ht) as Hbody.
  pose proof (for_each_loop_body cap dt t (cap - t) s Hs ltac:(lia)) as Hrest.
  destruct Hs as (Hp & Hv & Hm & _). split; [|by rewrite Hrest].
  exists (map (acc_row (masses s) (positions s)) (range 3)), (next_store dt t s).
  split; [by apply compute_accelerations_three|]. split; [done|].
  assert (Hnth : coincide (nth i (positions s) vzero) (nth j (positions s) vzero)).
  { by rewrite (nth_lookup_Some _ _ _ _ Hpi), (nth_lookup_Some _ _ _ _ Hqj). }
  assert (Hrow : forall k, k = i \/ k = j ->
            nan_row (acc_row (masses s) (positions s) k)).
  { intros k [->| ->];
      [by apply (acc_row_coincident _ _ i j), coincide_sym
      |by apply (acc_row_coincident _ _ j i)]. }
  intros k Hk. specialize (Hrow k Hk).
  assert (Hk3 : (k < 3)%nat) by (destruct Hk; lia).
  clear Hpi Hqj Hnth.
  unfold next_store; cbn [positions velocities].
  destruct (positions s) as [|p0 [|p1 [|p2 [|? ?]]]];
    cbn [length] in Hp; try lia.
  destruct (velocities s) as [|v0 [|v1 [|v2 [|? ?]]]];
    cbn [length] in Hv; try lia.
  destruct k as [|[|[|k]]]; [| | |lia];
    do 3 eexists; cbn [map range seq amul zip_with lookup list_lookup];
    (repeat split; [reflexivity..| | |]); apply nan_row_all_nan;
    repeat first [ done | apply vadd_nan_r | apply vmul_nan ].
Qed.

End Binary64.

(** ** Concrete runs in binary64 *)

(** C3 fails on the code: with two bodies at the same position no exception
    is raised.  [compute_accelerations] returns rows of NaN for the two
    bodies, the run continues, and the NaNs reach the velocities, the
    positions and the trajectory. *)
Lemma coincident_positions_give_nan :
  (exists a0 a1 a2,
     value_of (compute_accelerations coincident_positions
                 (initial_store Script.masses coincident_positions
                    Script.velocities 2))
     = Ok [a0; a1; a2] /\
     all_nan a0 = true /\ all_nan a1 = true) /\
  (exists out,
     simulate Script.masses coincident_positions Script.velocities Script.dt 2
     = Ok out /\
     forallb all_nan (velocities out) = true /\
     forallb all_nan (positions out) = true /\
     trajectory_at out 0 1 = Some (mkVec3 nan nan nan)).
Proof.
  split.
  - do 3 eexists. split; [vm_compute; reflexivity|]. by vm_compute.
  - eexists. split; [vm_compute; reflexivity|]. by vm_compute.
Qed.

(** C1 fails on the code outside exact arithmetic on three bodies.  With a
    fourth body in the snapshot, at nonzero distances from the others, the
    row of the fourth body is zero, where the sum over the other bodies is
    not.  In binary64, with two bodies 1e-110 apart, no computed distance is
    zero, yet the cube of the distance underflows to zero and the division
    gives an infinite and two NaN components for the first body. *)
Lemma compute_accelerations_not_newtonian :
  ((forall i j, i < 4 -> j < 4 -> i <> j ->
      norm (vsub (nth j row_positions vzero) (nth i row_positions vzero)) <> 0%R) /\
   exists acc,
     value_of (compute_accelerations row_positions
                 (mkStore row_masses row_positions [] [])) = Ok acc /\
     acc !! 3 = Some vzero /\
     newtonian_acceleration row_masses row_positions 3 <> vzero) /\
  (forallb (fun i => forallb (fun j => (i =? j) || apart near_positions i j)
                       (range 3)) (range 3) = true /\
   exists a0 a1 a2,
     value_of (compute_accelerations near_positions
                 (initial_store Script.masses near_positions
                    Script.velocities 1)) = Ok [a0; a1; a2] /\
     PrimFloat.eqb (vx a0) infinity = true /\
     is_nan (vy a0) = true /\ is_nan (vz a0) = true).
Proof.
  assert (Hd : forall x : R,
            sqrt (x * x + (0 - 0) * (0 - 0) + (0 - 0) * (0 - 0)) = Rabs x).
  { intros x. replace (x * x + _ + _)%R with (Rsqr x) by (unfold Rsqr; ring).
    apply sqrt_Rsqr_abs. }
  split; [split|].
  - intros i j Hi Hj Hij.
    destruct i as [|[|[|[|i]]]]; destruct j as [|[|[|[|j]]]]; try lia;
      unfold row_positions, norm; cbn [nth]; scalar_unfold;
      apply Rgt_not_eq, sqrt_lt_R0; lra.
  - eexists. split; [reflexivity|]. split; [reflexivity|].
    intros Heq. apply (f_equal vx) in Heq. revert Heq.
    unfold newtonian_acceleration, vsum, row_positions, row_masses, norm.
    cbn [length seq List.filter Nat.eqb negb map foldr nth].
    scalar_unfold. rewrite !Hd.
    replace (Rabs (0 - 3)) with 3%R
      by (unfold Rabs; destruct (Rcase_abs _); lra).
    replace (Rabs (1 - 3)) with 2%R
      by (unfold Rabs; destruct (Rcase_abs _); lra).
    replace (Rabs (2 - 3)) with 1%R
      by (unfold Rabs; destruct (Rcase_abs _); lra).
    cbn [G R_Scalar pow]. lra.
  - split; [by vm_compute|].
    do 3 eexists. split; [vm_compute; reflexivity|]. by vm_compute.
Qed.

(** C6 fails on the code: of the configurations the specification calls
    valid, only those with three bodies run.  With two bodies, positive
    masses, arrays of matching lengths and the script's [dt] and [steps],
    the first iteration raises ValueError and no trajectory is produced. *)
Lemma valid_two_body_configuration_raises :
  (length pair_masses = 2 /\ length pair_positions = 2 /\
   length pair_velocities = 2) /\
  forallb (fun m => PrimFloat.ltb 0 m) pair_masses = true /\
  PrimFloat.ltb 0 Script.dt = true /\ (0 < Script.steps)%Z /\
  simulate pair_masses pair_positions pair_velocities Script.dt Script.steps
  = Raise ValueError.
Proof. repeat split; by vm_compute. Qed.

(** C4 fails on the code: a zero mass, a negative mass and a negative [dt]
    are accepted, and the run completes. *)
Lemma unphysical_input_accepted :
  is_ok (simulate unphysical_masses Script.positions Script.velocities
           negative_dt 2) = true.
Proof. by vm_compute. Qed.

(** C10 fails on the code where it speaks of the whole simulation: with a
    fourth body in the arrays the run does not process the first three
    bodies, it stops in the first iteration with a ValueError, while the
    same run on the first three rows completes. *)
Lemma four_bodies_raise :
  simulate four_masses four_positions four_velocities Script.dt 1
  = Raise ValueError /\
  is_ok (simulate (take 3 four_masses) (take 3 four_positions)
           (take 3 four_velocities) Script.dt 1) = true.
Proof. split; by vm_compute. Qed.


(** ** The theorems at the script's initial conditions *)

Lemma float_store_shaped : shaped 3 float_store.
Proof. by apply initial_store_shaped. Defined.

Lemma exact_store_shaped : shaped 1 exact_store.
Proof. by apply initial_store_shaped. Defined.

Lemma compute_accelerations_newtonian_witness :
  exists acc,
    compute_accelerations exact_positions exact_store = Ok (acc, exact_store) /\
    acc !! 0 = Some (newtonian_acceleration exact_masses exact_positions 0).
Proof.
  destruct (compute_accelerations_newtonian exact_store exact_positions)
    as (_ & acc & Hacc & _ & Hrows).
  - reflexivity.
  - reflexivity.
  - intros i j Hi Hj Hij.
    destruct i as [|[|[|i]]]; destruct j as [|[|[|j]]]; try lia;
      unfold exact_positions, norm; cbn [nth]; scalar_unfold;
      apply Rgt_not_eq, sqrt_lt_R0; lra.
  - exists acc. split; [exact Hacc | apply Hrows; lia].
Defined.

Lemma loop_body_step_order_witness :
  exists s',
    loop_body Script.dt 0 float_store = Ok (tt, s') /\
    trajectory_at s' 1 0 = Some (mkVec3 (-1e10) 0 0)%float.
Proof.
  destruct (loop_body_step_order 3 Script.dt 0 float_store)
    as (acc & s' & _ & Hbody & Hrows).
  - exact float_store_shaped.
  - lia.
  - exists s'. split; [exact Hbody|].
    destruct (Hrows 1) as (p & v & a & Hp & _ & _ & Htraj & _); [lia|].
    cbn in Hp. by injection Hp as <-.
Defined.

Lemma coincident_positions_not_detected_witness :
  exists s',
    loop_body Script.dt 0 signed_zero_store = Ok (tt, s') /\
    exists v, velocities s' !! 1 = Some v /\ all_nan v = true.
Proof.
  destruct (coincident_positions_not_detected 3 Script.dt 0
              signed_zero_store 0 1 (mkVec3 1e10 0 0)%float
              (mkVec3 1e10 (-0) (-0))%float)
    as [(acc & s' & _ & Hbody & Hrows) _].
  - by apply initial_store_shaped.
  - lia.
  - lia.
  - lia.
  - lia.
  - reflexivity.
  - reflexivity.
  - repeat split; cbn [vx vy vz]; first [by left | by right].
  - exists s'. split; [exact Hbody|].
    destruct (Hrows 1) as (a & v & p & _ & Hv & _ & _ & Hnan & _); [by right|].
    by exists v.
Defined.

Lemma simulate_validates_nothing_witness :
  simulate Script.masses Script.positions Script.velocities Script.dt (-1)
  = Raise ValueError /\
  is_ok (simulate Script.masses (take 2 Script.positions) Script.velocities
           Script.dt 5) = false.
Proof.
  destruct (simulate_validates_nothing Script.masses Script.positions
              Script.velocities Script.dt (-1)) as (Hneg & _).
  destruct (simulate_validates_nothing Script.masses (take 2 Script.positions)
              Script.velocities Script.dt 5) as (_ & Hshape & _).
  split.
  - apply Hneg. left. lia.
  - apply Hshape; [lia|]. left. cbn. lia.
Defined.

Lemma trajectory_step0_initial_witness :
  exists out,
    simulate Script.masses Script.positions Script.velocities Script.dt 3
    = Ok out /\
    trajectory_at out 2 0 = Some (mkVec3 0 1e10 0)%float.
Proof.
  assert (Hrun :
    simulate Script.masses Script.positions Script.velocities Script.dt 3
    = Ok (iterate_from Script.dt 0 3
            (initial_store Script.masses Script.positions Script.velocities 3)))
    by (apply simulate_shaped; (reflexivity || (unfold max_intp; lia))).
  eexists. split; [exact Hrun|].
  destruct (trajectory_step0_initial Script.masses Script.positions
              Script.velocities Script.dt 3 _ ltac:(lia) Hrun) as [_ Hrows].
  apply Hrows. lia.
Defined.

Lemma compute_accelerations_frame_witness :
  exists out,
    simulate Script.masses Script.positions Script.velocities Script.dt 2
    = Ok out /\
    masses out = Script.masses.
Proof.
  eexists. split; [vm_compute; reflexivity|].
  apply (proj2 (proj2 (proj2 compute_accelerations_frame))
           Script.masses Script.positions Script.velocities Script.dt 2%Z).
  vm_compute; reflexivity.
Defined.

Lemma momentum_preserved_witness :
  exists s',
    loop_body exact_dt 0 exact_store = Ok (tt, s') /\
    weighted_sum (masses s') (velocities s') =
    weighted_sum exact_masses exact_velocities.
Proof.
  destruct (momentum_preserved 1 exact_dt 0 exact_store)
    as (acc & s' & _ & _ & Hbody & Hmomentum).
  - exact exact_store_shaped.
  - reflexivity.
  - lia.
  - intros i j Hi Hj Hij.
    destruct i as [|[|[|i]]]; destruct j as [|[|[|j]]]; try lia;
      cbn [positions exact_store initial_store exact_positions nth];
      intros Heq;
      pose proof (f_equal vx Heq) as Hx; pose proof (f_equal vy Heq) as Hy;
      cbn [vx vy] in Hx, Hy; lra.
  - exists s'. split; [exact Hbody | exact Hmomentum].
Defined.

Lemma three_bodies_hard_coded_witness :
  first_three (value_of (compute_accelerations four_positions
                           (initial_store four_masses four_positions
                              four_velocities 1))) =
  first_three (value_of (compute_accelerations Script.positions float_store)).
Proof. apply (proj1 three_bodies_hard_coded); reflexivity. Defined.

(** * Beyond the claims: the run as a whole *)

Section RunGeneric.
Context {F : Type} `{Scalar F}.

Lemma next_store_motion dt t t' (s s' : Store F) :
  motion s = motion s' ->
  motion (next_store dt t s) = motion (next_store dt t' s').
Proof. unfold motion, next_store. cbn. by intros [= -> -> ->]. Qed.

Lemma iterate_from_motion dt a a' n (s s' : Store F) :
  motion s = motion s' ->
  motion (iterate_from dt a n s) = motion (iterate_from dt a' n s').
Proof.
  revert a a' s s'. induction n as [|n IH]; intros a a' s s' Hm; [done|].
  cbn [iterate_from]. by apply IH, next_store_motion.
Qed.

Lemma iterate_from_add dt a n m (s : Store F) :
  iterate_from dt a (n + m) s = iterate_from dt (a + n) m (iterate_from dt a n s).
Proof.
  revert a s. induction n as [|n IH]; intros a s; cbn [iterate_from Nat.add].
  - by rewrite Nat.add_0_r.
  - rewrite IH. by replace (S a + n) with (a + S n) by lia.
Qed.

Lemma iterate_from_trajectory_at cap dt n (s : Store F) i t :
  shaped cap s -> n <= cap -> t < n -> i < 3 ->
  trajectory_at (iterate_from dt 0 n s) i t =
  positions (iterate_from dt 0 t s) !! i.
Proof.
  intros Hs Hcap Ht Hi.
  replace n with (t + S (n - S t)) by lia.
  rewrite iterate_from_add. cbn [iterate_from Nat.add].
  pose proof (iterate_from_shaped cap dt 0 t s Hs) as Hst.
  rewrite (iterate_from_trajectory_before cap)
    by (by apply next_store_shaped || lia).
  by rewrite (next_store_trajectory_eq cap) by (done || lia).
Qed.

(** X1.  The trajectory is the sequence of states: when a run of [steps]
    steps and a run of [t] steps from the same initial conditions both
    complete, with [t] below [steps], column [t] of the trajectory of every
    body in the long run is the position that body has at the end of the
    short run.  The positions after the last step are in no column. *)
Theorem trajectory_is_state_sequence ms ps vs dt steps t out out_t :
  (0 <= t < steps)%Z ->
  simulate ms ps vs dt steps = Ok out ->
  simulate ms ps vs dt t = Ok out_t ->
  forall i, i < 3 ->
    trajectory_at out i (Z.to_nat t) = positions out_t !! i.
Proof.
  intros Ht Hrun Hrun_t i Hi.
  apply simulate_Ok_inv in Hrun as (_ & _ & -> & Hshape).
  apply simulate_Ok_inv in Hrun_t as (_ & _ & -> & _).
  destruct Hshape as (Hp & Hv & Hm); [lia|].
  rewrite (iterate_from_trajectory_at (Z.to_nat steps))
    by first [ by apply initial_store_shaped | lia ].
  pose proof (iterate_from_motion dt 0 0 (Z.to_nat t)
                (initial_store ms ps vs steps) (initial_store ms ps vs t)
                eq_refl) as Hmotion.
  unfold motion in Hmotion. by injection Hmotion as _ -> _.
Qed.

Lemma iterate_from_masses dt a n (s : Store F) :
  masses (iterate_from dt a n s) = masses s.
Proof.
  revert a s. induction n as [|n IH]; intros a s; [done|].
  cbn [iterate_from]. by rewrite IH.
Qed.

(** X2.  Runs compose.  When a run of [n + m] steps, a run of [n] steps and
    a run of [m] steps started from the positions and velocities the run of
    [n] steps ends in all complete, the long run ends in the positions and
    velocities of the second run, and the trajectory of the second run is
    columns [n], [n + 1], ... of the trajectory of the long run. *)
Theorem runs_compose ms ps vs dt n m out out_n out_m :
  (0 <= n)%Z -> (0 <= m)%Z ->
  simulate ms ps vs dt (n + m) = Ok out ->
  simulate ms ps vs dt n = Ok out_n ->
  simulate ms (positions out_n) (velocities out_n) dt m = Ok out_m ->
  positions out = positions out_m /\
  velocities out = velocities out_m /\
  forall i t, i < 3 -> t < Z.to_nat m ->
    trajectory_at out i (Z.to_nat n + t) = trajectory_at out_m i t.
Proof.
  intros Hn Hm' Hrun Hrun_n Hrun_m.
  apply simulate_Ok_inv in Hrun as (_ & _ & -> & Hshape).
  apply simulate_Ok_inv in Hrun_n as (_ & _ & -> & _).
  apply simulate_Ok_inv in Hrun_m as (_ & _ & -> & _).
  destruct (Z.eq_dec (n + m)%Z 0%Z) as [Hzero|Hpos].
  { (* no step at all *)
    assert (n = 0%Z) as -> by lia. assert (m = 0%Z) as -> by lia.
    cbn. repeat split; intros; lia. }
  destruct Hshape as (Hp & Hv & Hm); [lia|].
  set (N := Z.to_nat n). set (M := Z.to_nat m).
  replace (Z.to_nat (n + m)) with (N + M) by (subst N M; lia).
  set (s0 := initial_store ms ps vs (n + m)).
  set (sn := iterate_from dt 0 N (initial_store ms ps vs n)).
  assert (Hs0 : shaped (N + M) s0).
  { replace (N + M) with (Z.to_nat (n + m)) by (subst N M; lia).
    by apply initial_store_shaped. }
  assert (Hsn : shaped N sn)
    by (by apply iterate_from_shaped, initial_store_shaped).
  destruct Hsn as (Hpn & Hvn & _).
  set (s1 := initial_store ms (positions sn) (velocities sn) m).
  assert (Hs1 : shaped M s1) by (by apply initial_store_shaped).
  (* the long run, after its first N iterations, moves like the second run *)
  assert (Hmid : motion (iterate_from dt 0 N s0) = motion s1).
  { transitivity (motion sn); [by apply iterate_from_motion|].
    unfold motion, s1, sn. cbn [masses positions velocities initial_store].
    by rewrite iterate_from_masses. }
  pose proof (iterate_from_motion dt N 0 M _ _ Hmid) as Hend.
  change N with (0 + N) in Hend at 1.
  rewrite <- (iterate_from_add dt 0 N M s0) in Hend.
  unfold motion in Hend. injection Hend as _ Hpos' Hvel.
  split; [done|]. split; [done|].
  intros i t Hi Ht.
  rewrite (iterate_from_trajectory_at (N + M)) by (done || lia).
  rewrite (iterate_from_trajectory_at M) by (done || lia).
  rewrite iterate_from_add. cbn [Nat.add].
  pose proof (iterate_from_motion dt N 0 t _ _ Hmid) as Ht'.
  unfold motion in Ht'. by injection Ht' as _ -> _.
Qed.

Lemma broadcast_to_length n (b rows : list (Vec3 F)) :
  broadcast_to n b = Ok rows -> length rows = n.
Proof.
  unfold broadcast_to. destruct (length b =? n) eqn:Hlen.
  - intros [= <-]. by apply Nat.eqb_eq.
  - destruct b as [|row [|? ?]]; try done.
    intros [= <-]. apply length_replicate.
Qed.

Lemma setitem_column_other (tr tr' : list (list (Vec3 F))) t src i t' :
  setitem_column tr t src = Ok tr' -> t' <> t ->
  (tr' !! i ≫= (.!! t')) = (tr !! i ≫= (.!! t')).
Proof.
  unfold setitem_column. destruct (forallb _ _); [|done].
  destruct (broadcast_to _ _) as [rows|] eqn:Hrows; [|done].
  apply broadcast_to_length in Hrows. intros [= <-] Hne.
  rewrite lookup_zip_with.
  destruct (tr !! i) as [body|] eqn:Eb; cbn; [|done].
  destruct (lookup_lt_is_Some_2 rows i) as [row ->].
  { apply lookup_lt_Some in Eb. lia. }
  cbn. by apply list_lookup_insert_ne.
Qed.

Lemma setitem_column_lengths (tr tr' : list (list (Vec3 F))) t src :
  setitem_column tr t src = Ok tr' -> map length tr' = map length tr.
Proof.
  unfold setitem_column. destruct (forallb _ _); [|done].
  destruct (broadcast_to _ _) as [rows|] eqn:Hrows; [|done].
  apply broadcast_to_length in Hrows. intros [= <-].
  revert rows Hrows. induction tr as [|body tr IH]; intros rows Hrows.
  - done.
  - destruct rows as [|row rows]; [done|]. cbn.
    rewrite length_insert. f_equal. apply IH. by injection Hrows.
Qed.

Lemma loop_body_trajectories dt t (s s' : Store F) u :
  loop_body dt t s = Ok (u, s') ->
  setitem_column (trajectories s) t (positions s) = Ok (trajectories s').
Proof.
  unfold loop_body. intros Hrun.
  repeat match type of Hrun with
  | bind _ _ _ = Ok _ =>
      let a := fresh "a" in let s1 := fresh "s" in
      let H1 := fresh "H" in
      apply bind_Ok in Hrun as (a & s1 & H1 & Hrun)
  end.
  repeat match goal with
  | H : read _ _ = Ok _ |- _ => injection H as <- <-
  | H : write _ _ = Ok _ |- _ => injection H as <- <-
  | H : lift _ _ = Ok _ |- _ => apply lift_Ok in H as [? ->]
  | H : compute_accelerations _ _ = Ok _ |- _ =>
      apply compute_accelerations_store in H as ->
  end.
  done.
Qed.

(** X3.  An iteration of the main loop that completes writes one column of
    the trajectory buffer and nothing else of it: every entry at a step
    index other than [t] is what it was, and every body's trajectory keeps
    its length.  This holds from every store, whatever its shapes. *)
Theorem loop_body_writes_one_column dt t (s s' : Store F) :
  loop_body dt t s = Ok (tt, s') ->
  map length (trajectories s') = map length (trajectories s) /\
  forall i t', t' <> t -> trajectory_at s' i t' = trajectory_at s i t'.
Proof.
  intros Hrun. apply loop_body_trajectories in Hrun. split.
  - by eapply setitem_column_lengths.
  - intros i t' Hne. unfold trajectory_at.
    pose proof (setitem_column_other _ _ _ _ i t' Hrun Hne) as Hother.
    by destruct (trajectories s' !! i), (trajectories s !! i).
Qed.

(** X4.  Which exception a malformed input raises once the loop runs.  From
    a store whose trajectory buffer holds three bodies with room for step 0,
    a loop of at least one step stops in its first iteration: positions with
    a number of rows other than 1 and 3 raise ValueError (the copy into the
    trajectory); positions with a single row pass that copy, numpy repeating
    the row for the three bodies, and raise IndexError in
    [compute_accelerations]; three positions with fewer than three masses
    raise IndexError; three positions and three masses with a number of
    velocity rows other than 3 raise ValueError. *)
Theorem first_step_exceptions dt steps (s : Store F) :
  (0 < steps)%Z ->
  length (trajectories s) = 3 ->
  Forall (fun body => 0 < length body) (trajectories s) ->
  (length (positions s) <> 1 -> length (positions s) <> 3 ->
     main_loop dt steps s = Raise ValueError) /\
  (length (positions s) = 1 -> main_loop dt steps s = Raise IndexError) /\
  (length (positions s) = 3 -> length (masses s) < 3 ->
     main_loop dt steps s = Raise IndexError) /\
  (length (positions s) = 3 -> 3 <= length (masses s) ->
     length (velocities s) <> 3 ->
     main_loop dt steps s = Raise ValueError).
Proof.
  intros Hsteps Htr Hroom. unfold main_loop, range_Z, range.
  destruct (Z.to_nat steps) as [|n] eqn:En; [lia|].
  cbn [seq for_each]. unfold bind at 1.
  destruct s as [ms ps vs tr]; cbn [masses positions velocities trajectories] in *.
  list3 tr Htr.
  apply Forall_cons in Hroom as [H0 Hroom].
  apply Forall_cons in Hroom as [H1 Hroom].
  apply Forall_cons in Hroom as [H2 _].
  destruct tr0 as [|c0 body0]; cbn [length] in H0; [lia|].
  destruct tr1 as [|c1 body1]; cbn [length] in H1; [lia|].
  destruct tr2 as [|c2 body2]; cbn [length] in H2; [lia|].
  repeat split.
  - intros Hn1 Hn3.
    destruct ps as [|p0 [|p1 [|p2 [|p3 ps]]]]; cbn [length] in Hn1, Hn3;
      try lia; reflexivity.
  - intros Hp1.
    destruct ps as [|p0 [|p1 ps]]; cbn [length] in Hp1; try lia.
    reflexivity.
  - intros Hp3 Hm.
    destruct ps as [|p0 [|p1 [|p2 [|p3 ps]]]]; cbn [length] in Hp3; try lia.
    destruct ms as [|m0 [|m1 [|m2 ms]]]; cbn [length] in Hm; try lia;
      reflexivity.
  - intros Hp3 Hm Hv.
    destruct ps as [|p0 [|p1 [|p2 [|p3 ps]]]]; cbn [length] in Hp3; try lia.
    destruct ms as [|m0 [|m1 [|m2 ms]]]; cbn [length] in Hm; try lia.
    destruct vs as [|v0 [|v1 [|v2 [|v3 vs]]]]; cbn [length] in Hv; try lia;
      reflexivity.
Qed.

(** X5.  The acceleration of a body does not depend on its own mass:
    replacing [masses[i]] by any value leaves row [i] of the result of
    [compute_accelerations] as it was. *)
Theorem own_mass_irrelevant pos (s : Store F) acc i m :
  i < 3 ->
  compute_accelerations pos s = Ok (acc, s) ->
  exists acc',
    value_of (compute_accelerations pos
                (mkStore (<[i := m]> (masses s)) (positions s)
                   (velocities s) (trajectories s))) = Ok acc' /\
    acc' !! i = acc !! i.
Proof.
  intros Hi Hrun.
  destruct (decide (length pos < 3)) as [Hp|Hp].
  { by rewrite compute_accelerations_short_pos in Hrun. }
  destruct (decide (length (masses s) < 3)) as [Hm|Hm].
  { by rewrite compute_accelerations_short_masses in Hrun. }
  destruct pos as [|p0 [|p1 [|p2 rest]]]; cbn [length] in Hp; try lia.
  destruct s as [ms ps vs tr]; cbn [masses positions velocities trajectories] in *.
  destruct ms as [|m0 [|m1 [|m2 mrest]]]; cbn [length] in Hm; try lia.
  rewrite (compute_accelerations_rows _ _ _ _ m0 m1 m2 mrest) in Hrun by done.
  injection Hrun as <-.
  destruct i as [|[|[|i]]]; [| | |lia]; eexists; split;
    try (erewrite compute_accelerations_rows by reflexivity; reflexivity);
    reflexivity.
Qed.

End RunGeneric.

(** * Beyond the claims: conservation laws in exact arithmetic *)

Section ExactRun.
Local Open Scope R_scope.

Ltac three_bodies s Hs :=
  let ms := fresh "ms" in let ps := fresh "ps" in
  let vs := fresh "vs" in let tr := fresh "tr" in
  destruct s as [ms ps vs tr];
  destruct Hs as (?Hp & ?Hv & _ & _ & _);
  cbn [masses positions velocities trajectories] in *;
  destruct ps as [|?p0 [|?p1 [|?p2 [|? ?]]]]; cbn [length] in *; try lia;
  destruct vs as [|?v0 [|?v1 [|?v2 [|? ?]]]]; cbn [length] in *; try lia;
  destruct ms as [|?m0 [|?m1 [|?m2 [|? ?]]]]; cbn [length] in *; try lia.

Lemma next_store_momentum cap dt t (s : Store R) :
  shaped cap s -> length (masses s) = 3%nat ->
  weighted_sum (masses s) (velocities (next_store dt t s)) =
    weighted_sum (masses s) (velocities s) /\
  weighted_sum (masses s) (positions (next_store dt t s)) =
    vadd (weighted_sum (masses s) (positions s))
         (smul dt (weighted_sum (masses s) (velocities s))).
Proof.
  intros Hs Hm. three_bodies s Hs.
  pose proof (weighted_sum_acc_rows m0 m1 m2 p0 p1 p2) as Hzero.
  unfold next_store; cbn [masses positions velocities map range seq] in *.
  set (a0 := acc_row _ _ 0%nat) in *.
  set (a1 := acc_row _ _ 1%nat) in *.
  set (a2 := acc_row _ _ 2%nat) in *.
  clearbody a0 a1 a2.
  unfold weighted_sum, vsum, amul in *. cbn [map zip_with foldr] in *.
  injection Hzero as Hx Hy Hz. revert Hx Hy Hz. scalar_unfold.
  intros Hx Hy Hz.
  (* each component changes by a multiple of the weighted acceleration sum *)
  split; apply Vec3_eq; scalar_unfold;
    match goal with
    | |- ?L = ?R =>
        first
          [ match type of Hx with ?e = _ =>
              first [ replace L with (R + dt * e) by ring
                    | replace L with (R + dt * dt * e) by ring ];
              rewrite Hx; ring end
          | match type of Hy with ?e = _ =>
              first [ replace L with (R + dt * e) by ring
                    | replace L with (R + dt * dt * e) by ring ];
              rewrite Hy; ring end
          | match type of Hz with ?e = _ =>
              first [ replace L with (R + dt * e) by ring
                    | replace L with (R + dt * dt * e) by ring ];
              rewrite Hz; ring end ]
    end.
Qed.

Lemma iterate_from_momentum cap dt a n (s : Store R) :
  shaped cap s -> length (masses s) = 3%nat ->
  weighted_sum (masses s) (velocities (iterate_from dt a n s)) =
    weighted_sum (masses s) (velocities s) /\
  weighted_sum (masses s) (positions (iterate_from dt a n s)) =
    vadd (weighted_sum (masses s) (positions s))
         (smul (INR n * dt) (weighted_sum (masses s) (velocities s))).
Proof.
  revert a s. induction n as [|n IH]; intros a s Hs Hm.
  - cbn [iterate_from]. split; [done|].
    apply Vec3_eq; scalar_unfold; cbn [INR]; ring.
  - cbn [iterate_from].
    destruct (next_store_momentum cap dt a s Hs Hm) as [Hv Hp].
    destruct (IH (S a) (next_store dt a s)) as [IHv IHp];
      [by apply next_store_shaped | done |].
    cbn [next_store masses] in IHv, IHp. rewrite IHv, IHp, Hv, Hp.
    split; [done|]. rewrite S_INR.
    apply Vec3_eq; scalar_unfold; ring.
Qed.

(** X6.  In exact arithmetic the total momentum is the same after a
    completed run of any number of steps as before it, and the mass-weighted
    sum of the positions has moved by steps * dt times the total momentum
    (the centre of mass moves uniformly), as long as no two bodies coincide
    at a recorded step. *)
Theorem momentum_conserved_over_run ms ps vs dt steps out :
  length ms = 3%nat ->
  simulate ms ps vs dt steps = Ok out ->
  never_coincident steps out ->
  weighted_sum ms (velocities out) = weighted_sum ms vs /\
  weighted_sum ms (positions out) =
    vadd (weighted_sum ms ps) (smul (IZR steps * dt) (weighted_sum ms vs)).
Proof.
  intros Hm Hrun _.
  apply simulate_Ok_inv in Hrun as (Hsteps & _ & -> & Hshape).
  destruct (Z.eq_dec steps 0%Z) as [->|Hne].
  { split; [done|].
    change (positions (iterate_from dt 0 (Z.to_nat 0) (initial_store ms ps vs 0)))
      with ps.
    generalize (weighted_sum ms ps) (weighted_sum ms vs). intros a b.
    apply Vec3_eq; scalar_unfold; ring. }
  destruct Hshape as (Hp & Hv & _); [lia|].
  destruct (iterate_from_momentum (Z.to_nat steps) dt 0 (Z.to_nat steps)
              (initial_store ms ps vs steps)) as [Hvel Hpos];
    [apply initial_store_shaped; lia | done |].
  cbn [initial_store masses positions velocities] in Hvel, Hpos.
  split; [done|]. rewrite Hpos.
  by rewrite INR_IZR_INZ, Z2Nat.id.
Qed.

Lemma next_store_angular_momentum cap dt t (s : Store R) :
  shaped cap s -> length (masses s) = 3%nat ->
  angular_momentum (masses s) (positions (next_store dt t s))
    (velocities (next_store dt t s)) =
  angular_momentum (masses s) (positions s) (velocities s).
Proof.
  intros Hs Hm. three_bodies s Hs.
  unfold next_store, angular_momentum, weighted_sum, vsum, amul, acc_row, pull.
  cbn [masses positions velocities map range seq zip_with foldr
       length List.filter Nat.eqb negb nth].
  rewrite (norm_vsub_sym p0 p1), (norm_vsub_sym p0 p2), (norm_vsub_sym p1 p2).
  generalize (norm (vsub p1 p0)) (norm (vsub p2 p0)) (norm (vsub p2 p1)).
  intros d01 d02 d12.
  apply Vec3_eq; unfold vcross; scalar_unfold; unfold Rdiv; ring.
Qed.

Lemma iterate_from_angular_momentum cap dt a n (s : Store R) :
  shaped cap s -> length (masses s) = 3%nat ->
  angular_momentum (masses s) (positions (iterate_from dt a n s))
    (velocities (iterate_from dt a n s)) =
  angular_momentum (masses s) (positions s) (velocities s).
Proof.
  revert a s. induction n as [|n IH]; intros a s Hs Hm; [done|].
  cbn [iterate_from].
  rewrite <- (next_store_angular_momentum cap dt a s Hs Hm).
  by apply (IH (S a) (next_store dt a s)); [apply next_store_shaped|].
Qed.

(** X7.  In exact arithmetic the total angular momentum
    Σ_i masses[i] * (p[i] × v[i]) is the same after a completed run of any
    number of steps as before it, as long as no two bodies coincide at a
    recorded step: updating the velocities before the positions keeps it
    exactly. *)
Theorem angular_momentum_conserved_over_run ms ps vs dt steps out :
  length ms = 3%nat ->
  simulate ms ps vs dt steps = Ok out ->
  never_coincident steps out ->
  angular_momentum ms (positions out) (velocities out) =
  angular_momentum ms ps vs.
Proof.
  intros Hm Hrun _.
  apply simulate_Ok_inv in Hrun as (Hsteps & _ & -> & Hshape).
  destruct (Z.eq_dec steps 0%Z) as [->|Hne]; [done|].
  destruct Hshape as (Hp & Hv & _); [lia|].
  by apply (iterate_from_angular_momentum (Z.to_nat steps) dt 0
              (Z.to_nat steps) (initial_store ms ps vs steps));
    [apply initial_store_shaped; lia|].
Qed.

Lemma vsub_translate (c p q : Vec3 R) : vsub (vadd p c) (vadd q c) = vsub p q.
Proof. apply Vec3_eq; scalar_unfold; ring. Qed.

Lemma vadd_translate (c p w : Vec3 R) :
  vadd (vadd p c) w = vadd (vadd p w) c.
Proof. apply Vec3_eq; scalar_unfold; ring. Qed.

Lemma acc_row_translate ms c (p0 p1 p2 : Vec3 R) i :
  acc_row ms (translate c [p0; p1; p2]) i = acc_row ms [p0; p1; p2] i.
Proof.
  unfold acc_row, pull, translate.
  destruct i as [|[|[|i]]];
    cbn [map range seq List.filter Nat.eqb negb nth];
    by rewrite ?vsub_translate.
Qed.

Lemma next_store_translate cap c dt t t' (s s' : Store R) :
  shaped cap s ->
  masses s' = masses s -> velocities s' = velocities s ->
  positions s' = translate c (positions s) ->
  masses (next_store dt t' s') = masses (next_store dt t s) /\
  velocities (next_store dt t' s') = velocities (next_store dt t s) /\
  positions (next_store dt t' s') = translate c (positions (next_store dt t s)).
Proof.
  intros (Hp & Hv & _) Hms Hvs Hps. unfold next_store.
  cbn [masses positions velocities]. rewrite Hms, Hvs, Hps.
  destruct (positions s) as [|p0 [|p1 [|p2 [|? ?]]]];
    cbn [length] in Hp; try lia.
  destruct (velocities s) as [|v0 [|v1 [|v2 [|? ?]]]];
    cbn [length] in Hv; try lia.
  cbn [map range seq]. rewrite !acc_row_translate.
  split; [done|]. split; [done|].
  unfold translate. cbn [map zip_with amul].
  by rewrite (vadd_translate c p0), (vadd_translate c p1),
    (vadd_translate c p2).
Qed.

Lemma iterate_from_translate cap c dt a a' n (s s' : Store R) :
  shaped cap s ->
  masses s' = masses s -> velocities s' = velocities s ->
  positions s' = translate c (positions s) ->
  velocities (iterate_from dt a' n s') = velocities (iterate_from dt a n s) /\
  positions (iterate_from dt a' n s') =
    translate c (positions (iterate_from dt a n s)).
Proof.
  revert a a' s s'. induction n as [|n IH]; intros a a' s s' Hs Hms Hvs Hps.
  - done.
  - cbn [iterate_from].
    destruct (next_store_translate cap c dt a a' s s') as (? & ? & ?);
      try done.
    apply IH; try done. by apply next_store_shaped.
Qed.

(** X8.  In exact arithmetic the run is invariant under translation: when
    the run from the initial positions and the run from the positions all
    moved by the same vector [c] both complete, and no two bodies coincide
    at a recorded step, every recorded and every final position of the
    second is that of the first moved by [c], and the velocities are the
    same. *)
Theorem translation_invariance ms ps vs dt steps c out out' :
  simulate ms ps vs dt steps = Ok out ->
  simulate ms (translate c ps) vs dt steps = Ok out' ->
  never_coincident steps out ->
  velocities out' = velocities out /\
  positions out' = translate c (positions out) /\
  forall i t, (i < 3)%nat -> (t < Z.to_nat steps)%nat ->
    trajectory_at out' i t =
    (fun p => vadd p c) <$> trajectory_at out i t.
Proof.
  intros Hrun Hrun' _.
  apply simulate_Ok_inv in Hrun as (Hsteps & _ & -> & Hshape).
  apply simulate_Ok_inv in Hrun' as (_ & _ & -> & _).
  destruct (Z.eq_dec steps 0%Z) as [->|Hne].
  { cbn. repeat split; intros; lia. }
  destruct Hshape as (Hp & Hv & Hm); [lia|].
  assert (Hp' : length (translate c ps) = 3%nat)
    by (unfold translate; by rewrite length_map).
  pose proof (initial_store_shaped ms ps vs steps Hp Hv Hm) as Hs.
  pose proof (initial_store_shaped ms (translate c ps) vs steps Hp' Hv Hm)
    as Hs'.
  destruct (iterate_from_translate (Z.to_nat steps) c dt 0 0 (Z.to_nat steps)
              (initial_store ms ps vs steps)
              (initial_store ms (translate c ps) vs steps))
    as [Hvel Hpos]; try done.
  split; [done|]. split; [done|].
  intros i t Hi Ht.
  rewrite !(iterate_from_trajectory_at (Z.to_nat steps)) by (done || lia).
  destruct (iterate_from_translate (Z.to_nat steps) c dt 0 0 t
              (initial_store ms ps vs steps)
              (initial_store ms (translate c ps) vs steps))
    as [_ ->]; try done.
  unfold translate. by rewrite list_lookup_fmap.
Qed.

Lemma vmul_zero (a : Vec3 R) : vmul a 0 = vzero.
Proof. apply Vec3_eq; scalar_unfold; ring. Qed.

Lemma vadd_zero (a : Vec3 R) : vadd a vzero = a.
Proof. apply Vec3_eq; scalar_unfold; ring. Qed.

Lemma next_store_zero_dt cap t (s : Store R) :
  shaped cap s -> motion (next_store 0 t s) = motion s.
Proof.
  intros (Hp & Hv & _). unfold motion, next_store.
  cbn [masses positions velocities].
  destruct (positions s) as [|p0 [|p1 [|p2 [|? ?]]]];
    cbn [length] in Hp; try lia.
  destruct (velocities s) as [|v0 [|v1 [|v2 [|? ?]]]];
    cbn [length] in Hv; try lia.
  cbn [map range seq amul zip_with].
  by rewrite !vmul_zero, !vadd_zero.
Qed.

Lemma iterate_from_zero_dt cap a n (s : Store R) :
  shaped cap s -> motion (iterate_from 0 a n s) = motion s.
Proof.
  revert a s. induction n as [|n IH]; intros a s Hs; [done|].
  cbn [iterate_from]. rewrite IH by by apply next_store_shaped.
  by apply (next_store_zero_dt cap).
Qed.

(** X9.  A zero time step is accepted and freezes the system, in exact
    arithmetic: when a run with [dt = 0] from pairwise distinct positions
    completes, the final positions and velocities are the initial ones, and
    every column of the trajectory holds the initial positions. *)
Theorem zero_time_step_freezes ms ps vs steps out :
  (forall i j, (i < 3)%nat -> (j < 3)%nat -> i <> j ->
     nth i ps vzero <> nth j ps vzero) ->
  simulate ms ps vs 0 steps = Ok out ->
  positions out = ps /\ velocities out = vs /\
  forall i t, (i < 3)%nat -> (t < Z.to_nat steps)%nat ->
    trajectory_at out i t = ps !! i.
Proof.
  intros _ Hrun.
  apply simulate_Ok_inv in Hrun as (Hsteps & _ & -> & Hshape).
  destruct (Z.eq_dec steps 0%Z) as [->|Hne].
  { cbn. repeat split; intros; lia. }
  destruct Hshape as (Hp & Hv & Hm); [lia|].
  pose proof (initial_store_shaped ms ps vs steps Hp Hv Hm) as Hs.
  pose proof (iterate_from_zero_dt _ 0 (Z.to_nat steps) _ Hs) as Hend.
  unfold motion in Hend. injection Hend as _ Hpos Hvel.
  split; [done|]. split; [done|].
  intros i t Hi Ht.
  rewrite (iterate_from_trajectory_at (Z.to_nat steps)) by (done || lia).
  pose proof (iterate_from_zero_dt _ 0 t _ Hs) as Hmid.
  unfold motion in Hmid. by injection Hmid as _ -> _.
Qed.

End ExactRun.

(** * Beyond the claims: NaN in binary64 *)

Section Binary64Run.
Local Open Scope float_scope.

Lemma sub_nan_l a b : nan_float a -> nan_float (a - b).
Proof. unfold nan_float. rewrite sub_spec. by intros ->. Qed.

Lemma sub_nan_r a b : nan_float b -> nan_float (a - b).
Proof.
  unfold nan_float. rewrite sub_spec. intros ->.
  by destruct (Prim2SF a) as [[]|[]| |].
Qed.

Lemma mul_nan_r a b : nan_float b -> nan_float (a * b).
Proof.
  unfold nan_float. rewrite mul_spec. intros ->.
  by destruct (Prim2SF a) as [[]|[]| |].
Qed.

Lemma sqrt_nan a : nan_float a -> nan_float (PrimFloat.sqrt a).
Proof. unfold nan_float. rewrite sqrt_spec. by intros ->. Qed.

Lemma div_nan_r a b : nan_float b -> nan_float (a / b).
Proof.
  unfold nan_float. rewrite div_spec. intros ->.
  by destruct (Prim2SF a) as [[]|[]| |].
Qed.

Lemma vsub_has_nan (a b : Vec3 float) :
  has_nan a \/ has_nan b -> has_nan (vsub a b).
Proof.
  unfold has_nan. cbn [vsub vx vy vz fsub float_Scalar].
  intros [[?|[?|?]]|[?|[?|?]]];
    first [ left; apply sub_nan_l; assumption
          | left; apply sub_nan_r; assumption
          | right; left; apply sub_nan_l; assumption
          | right; left; apply sub_nan_r; assumption
          | right; right; apply sub_nan_l; assumption
          | right; right; apply sub_nan_r; assumption ].
Qed.

Lemma norm_has_nan (r : Vec3 float) : has_nan r -> nan_float (norm r).
Proof.
  unfold norm. cbn [fsqrt fadd fmul float_Scalar].
  intros [?|[?|?]]; apply sqrt_nan.
  - by apply add_nan_l, add_nan_l, mul_nan_l.
  - by apply add_nan_l, add_nan_r, mul_nan_l.
  - by apply add_nan_r, mul_nan_l.
Qed.

Lemma pull_has_nan ms (pos : list (Vec3 float)) i j :
  has_nan (nth i pos vzero) \/ has_nan (nth j pos vzero) ->
  nan_row (pull ms pos i j).
Proof.
  intros Hnan. unfold pull.
  assert (Hd : nan_float
                 (norm (vsub (nth j pos vzero) (nth i pos vzero)) ** 3)%sc).
  { cbn [fpow float_Scalar float_pow].
    apply mul_nan_l, norm_has_nan, vsub_has_nan. tauto. }
  repeat split; cbn [vx vy vz vdiv]; by apply div_nan_r.
Qed.

Lemma acc_row_has_nan ms (pos : list (Vec3 float)) i k :
  (i < 3)%nat -> (k < 3)%nat ->
  has_nan (nth k pos vzero) -> nan_row (acc_row ms pos i).
Proof.
  intros Hi Hk Hnan.
  destruct i as [|[|[|i]]], k as [|[|[|k]]]; try lia; unfold acc_row;
    cbn [range seq List.filter Nat.eqb negb];
    first [ apply vadd_nan_r, pull_has_nan; by auto
          | apply vadd_nan_l, vadd_nan_r, pull_has_nan; by auto ].
Qed.

(** X10.  In binary64 one NaN contaminates the whole system in one
    iteration: from a store of the script's shapes in which some coordinate
    of some body's position is NaN, the iteration completes without an
    exception, and after it every component of the velocity and of the
    position of every body is NaN. *)
Theorem nan_position_contaminates_all
    (cap : nat) (dt : float) (t : nat) (s : Store float) (k : nat) p :
  shaped cap s -> (t < cap)%nat -> (k < 3)%nat ->
  positions s !! k = Some p -> has_nan p ->
  exists s',
    loop_body dt t s = Ok (tt, s') /\
    forall i, (i < 3)%nat ->
      exists v q,
        velocities s' !! i = Some v /\ positions s' !! i = Some q /\
        all_nan v = true /\ all_nan q = true.
Proof.
  intros Hs Ht Hk Hpk Hnan.
  exists (next_store dt t s). split; [by apply (loop_body_shaped cap)|].
  destruct Hs as (Hp & Hv & _).
  assert (Hnth : has_nan (nth k (positions s) vzero)).
  { by rewrite (nth_lookup_Some _ _ _ _ Hpk). }
  intros i Hi.
  pose proof (fun j Hj => acc_row_has_nan (masses s) (positions s) j k Hj Hk Hnth)
    as Hrow.
  unfold next_store; cbn [positions velocities].
  destruct (positions s) as [|p0 [|p1 [|p2 [|? ?]]]];
    cbn [length] in Hp; try lia.
  destruct (velocities s) as [|v0 [|v1 [|v2 [|? ?]]]];
    cbn [length] in Hv; try lia.
  destruct i as [|[|[|i]]]; [| | |lia];
    do 2 eexists; cbn [map range seq amul zip_with lookup list_lookup];
    (repeat split; [reflexivity..| |]); apply nan_row_all_nan;
    repeat first [ apply Hrow; lia | apply vadd_nan_r | apply vmul_nan ].
Qed.

End Binary64Run.

(** * Beyond the claims: framing and animation data *)

Section Framing.
Local Open Scope R_scope.

Lemma foldl_Rmin_le (l : list R) x0 :
  foldl Rmin x0 l <= x0 /\ Forall (fun y => foldl Rmin x0 l <= y) l.
Proof.
  revert x0. induction l as [|y l IH]; intros x0; cbn [foldl].
  - split; [lra | constructor].
  - destruct (IH (Rmin x0 y)) as [Hle Hall].
    pose proof (Rmin_l x0 y). pose proof (Rmin_r x0 y).
    split; [lra|]. constructor; [lra | done].
Qed.

Lemma foldl_Rmax_ge (l : list R) x0 :
  x0 <= foldl Rmax x0 l /\ Forall (fun y => y <= foldl Rmax x0 l) l.
Proof.
  revert x0. induction l as [|y l IH]; intros x0; cbn [foldl].
  - split; [lra | constructor].
  - destruct (IH (Rmax x0 y)) as [Hle Hall].
    pose proof (Rmax_l x0 y). pose proof (Rmax_r x0 y).
    split; [lra|]. constructor; [lra | done].
Qed.

Lemma foldl_Rmin_elem (l : list R) x0 : foldl Rmin x0 l ∈ x0 :: l.
Proof.
  revert x0. induction l as [|y l IH]; intros x0; cbn [foldl].
  - apply list_elem_of_here.
  - specialize (IH (Rmin x0 y)).
    apply elem_of_cons in IH as [->|Hin].
    + unfold Rmin. destruct (Rle_dec x0 y);
        [apply list_elem_of_here || apply list_elem_of_further, list_elem_of_here
        |apply list_elem_of_here || apply list_elem_of_further, list_elem_of_here].
    + by do 2 apply list_elem_of_further.
Qed.

Lemma foldl_Rmax_elem (l : list R) x0 : foldl Rmax x0 l ∈ x0 :: l.
Proof.
  revert x0. induction l as [|y l IH]; intros x0; cbn [foldl].
  - apply list_elem_of_here.
  - specialize (IH (Rmax x0 y)).
    apply elem_of_cons in IH as [->|Hin].
    + unfold Rmax. destruct (Rle_dec x0 y);
        [apply list_elem_of_here || apply list_elem_of_further, list_elem_of_here
        |apply list_elem_of_here || apply list_elem_of_further, list_elem_of_here].
    + by do 2 apply list_elem_of_further.
Qed.

Lemma foldl_vmin_proj (rows : list (Vec3 R)) row :
  vx (foldl vmin row rows) = foldl Rmin (vx row) (map vx rows) /\
  vy (foldl vmin row rows) = foldl Rmin (vy row) (map vy rows) /\
  vz (foldl vmin row rows) = foldl Rmin (vz row) (map vz rows).
Proof.
  revert row. induction rows as [|r rows IH]; intros row; [done|].
  cbn [foldl map]. by destruct (IH (vmin row r)) as (-> & -> & ->).
Qed.

Lemma foldl_vmax_proj (rows : list (Vec3 R)) row :
  vx (foldl vmax row rows) = foldl Rmax (vx row) (map vx rows) /\
  vy (foldl vmax row rows) = foldl Rmax (vy row) (map vy rows) /\
  vz (foldl vmax row rows) = foldl Rmax (vz row) (map vz rows).
Proof.
  revert row. induction rows as [|r rows IH]; intros row; [done|].
  cbn [foldl map]. by destruct (IH (vmax row r)) as (-> & -> & ->).
Qed.

(** In exact arithmetic center - max_range and center + max_range are the
    minimum and the maximum themselves. *)
Lemma axis_limits_min_max (tr : list (list (Vec3 R))) row rows :
  reshape_rows tr = row :: rows ->
  axis_limits tr =
    Ok (mkLimits
          (foldl Rmin (vx row) (map vx rows), foldl Rmax (vx row) (map vx rows))
          (foldl Rmin (vy row) (map vy rows), foldl Rmax (vy row) (map vy rows))
          (foldl Rmin (vz row) (map vz rows), foldl Rmax (vz row) (map vz rows))).
Proof.
  intros Hrows. unfold axis_limits. rewrite Hrows. cbn [amin amax].
  destruct (foldl_vmin_proj rows row) as (<- & <- & <-).
  destruct (foldl_vmax_proj rows row) as (<- & <- & <-).
  generalize (foldl vmin row rows) (foldl vmax row rows). intros lo hi.
  scalar_unfold. cbn [f_two R_PlotScalar].
  do 2 f_equal; f_equal; lra.
Qed.

Lemma elem_of_concat_lookup {A} (ls : list (list A)) i l t x :
  ls !! i = Some l -> l !! t = Some x -> x ∈ concat ls.
Proof.
  revert i. induction ls as [|l' ls IH]; intros i Hl Hx; [done|].
  cbn [concat]. apply elem_of_app. destruct i as [|i].
  - left. injection Hl as ->. by eapply list_elem_of_lookup_2.
  - right. by eapply IH.
Qed.

Lemma trajectory_at_reshape (s : Store R) i t p :
  trajectory_at s i t = Some p -> p ∈ reshape_rows (trajectories s).
Proof.
  unfold trajectory_at, reshape_rows.
  destruct (trajectories s !! i) as [body|] eqn:Eb; [|done]. intros Ep.
  by eapply elem_of_concat_lookup.
Qed.

Lemma proj_elem (f : Vec3 R -> R) row rows b :
  b ∈ f row :: map f rows -> attained f (row :: rows) b.
Proof.
  change (f row :: map f rows) with (map f (row :: rows)).
  intros Hin. apply list_elem_of_fmap in Hin as (q & -> & Hq). by exists q.
Qed.

(** X11.  Lines 102 to 112 frame the whole run, in exact arithmetic: when
    the buffer holds at least one recorded position the limits are computed,
    every recorded position lies within them on every axis, and each of the
    six limits is a coordinate of some recorded position, so the box is the
    smallest one that holds the run. *)
Theorem axis_limits_frame_run (s : Store R) i t p :
  trajectory_at s i t = Some p ->
  exists L,
    axis_limits (trajectories s) = Ok L /\
    (forall j u q, trajectory_at s j u = Some q -> inside L q) /\
    attained vx (reshape_rows (trajectories s)) (fst (xlim L)) /\
    attained vx (reshape_rows (trajectories s)) (snd (xlim L)) /\
    attained vy (reshape_rows (trajectories s)) (fst (ylim L)) /\
    attained vy (reshape_rows (trajectories s)) (snd (ylim L)) /\
    attained vz (reshape_rows (trajectories s)) (fst (zlim L)) /\
    attained vz (reshape_rows (trajectories s)) (snd (zlim L)).
Proof.
  intros Hp. apply trajectory_at_reshape in Hp.
  destruct (reshape_rows (trajectories s)) as [|row rows] eqn:Hrows;
    [by apply elem_of_nil in Hp|].
  eexists. split; [by apply axis_limits_min_max|].
  cbn [xlim ylim zlim fst snd]. split.
  - intros j u q Hq. apply trajectory_at_reshape in Hq. rewrite Hrows in Hq.
    assert (Hbound : forall f : Vec3 R -> R,
              foldl Rmin (f row) (map f rows) <= f q <=
              foldl Rmax (f row) (map f rows)).
    { intros f.
      destruct (foldl_Rmin_le (map f rows) (f row)) as [Hlo Hlos].
      destruct (foldl_Rmax_ge (map f rows) (f row)) as [Hhi His].
      apply elem_of_cons in Hq as [->|Hq]; [lra|].
      rewrite Forall_forall in Hlos, His.
      assert (Hfq : f q ∈ map f rows) by (apply list_elem_of_fmap; eauto).
      specialize (Hlos _ Hfq). specialize (His _ Hfq). lra. }
    repeat split; apply Hbound.
  - repeat split; apply proj_elem;
      (apply foldl_Rmin_elem || apply foldl_Rmax_elem).
Qed.

End Framing.

Section Animation.
Context {F : Type} `{Scalar F} `{PlotScalar F}.

Lemma concat_replicate_nil {A} n : concat (replicate n (@nil A)) = [].
Proof. induction n as [|n IH]; [done|]. by cbn. Qed.

(** X12.  The framing code and the length of the run: after a run of zero
    steps, which the integration loop accepts for every input, line 104
    raises ValueError, the reduction of an empty array; after a completed
    run of at least one step the limits are computed. *)
Theorem framing_needs_one_step ms ps vs (dt : F) steps :
  (exists out,
     simulate ms ps vs dt 0 = Ok out /\
     axis_limits (trajectories out) = Raise ValueError) /\
  (forall out,
     (0 < steps)%Z ->
     simulate ms ps vs dt steps = Ok out ->
     exists L, axis_limits (trajectories out) = Ok L).
Proof.
  split; [by eexists|].
  intros out Hsteps Hrun.
  apply simulate_Ok_inv in Hrun as (_ & _ & -> & Hshape).
  destruct (Hshape Hsteps) as (Hp & Hv & Hm).
  destruct (iterate_from_shaped (Z.to_nat steps) dt 0 (Z.to_nat steps)
              (initial_store ms ps vs steps))
    as (_ & _ & _ & Htr & Hcap); [by apply initial_store_shaped|].
  destruct (trajectories _) as [|body tr]; [done|].
  apply Forall_cons in Hcap as [Hbody _].
  destruct body as [|row body]; [cbn in Hbody; lia|].
  unfold axis_limits, reshape_rows. cbn [concat app amin amax].
  by eexists.
Qed.

Lemma slice_to_take {A} (a : list A) (k : Z) :
  (0 <= k)%Z -> slice_to a k = take (Z.to_nat k) a.
Proof. intros Hk. unfold slice_to. by destruct (Z.ltb_spec k 0); [lia|]. Qed.

Lemma trail_take cap (s : Store F) i (f : Z) :
  shaped cap s -> i < 3 -> (0 <= f)%Z -> Z.to_nat f <= cap ->
  exists tl,
    trail (trajectories s) i f = Ok tl /\
    length tl = Z.to_nat f /\
    (forall t, t < Z.to_nat f -> tl !! t = trajectory_at s i t) /\
    marker tl =
      if (f =? 0)%Z then None else trajectory_at s i (Z.to_nat f - 1).
Proof.
  intros (_ & _ & _ & Htr & Hcap) Hi Hf Hle.
  unfold trail, trajectory_at, marker.
  destruct (lookup_lt_is_Some_2 (trajectories s) i) as [body Eb]; [lia|].
  rewrite Eb. rewrite Forall_lookup in Hcap. specialize (Hcap _ _ Eb).
  cbn in Hcap. rewrite slice_to_take by done.
  eexists. split; [done|].
  assert (Hlen : length (take (Z.to_nat f) body) = Z.to_nat f)
    by (rewrite length_take; lia).
  split; [done|]. split.
  - intros t Ht. by apply lookup_take_lt.
  - rewrite last_lookup, Hlen.
    destruct (Z.eqb_spec f 0) as [->|Hne]; [done|].
    rewrite Nat.sub_1_r. apply lookup_take_lt. lia.
Qed.

End Animation.

Lemma frames_spec steps f :
  f ∈ frames steps <-> (0 <= f < steps)%Z /\ (25 | f)%Z.
Proof.
  unfold frames, range_step. destruct (Z.ltb_spec 0 steps) as [Hpos|Hle].
  - rewrite list_elem_of_fmap. split.
    + intros (k & -> & Hk). apply elem_of_seq in Hk.
      assert (Hk' : (Z.of_nat k <= (steps - 0 - 1) / 25)%Z) by lia.
      pose proof (Z.mul_div_le (steps - 0 - 1) 25 ltac:(lia)).
      split; [nia|]. exists (Z.of_nat k). lia.
    + intros [Hf [q Hq]]. exists (Z.to_nat q).
      split; [lia|]. apply elem_of_seq.
      assert (q <= (steps - 0 - 1) / 25)%Z
        by (apply Z.div_le_lower_bound; lia).
      lia.
  - rewrite elem_of_nil. split; [done|]. lia.
Qed.

Section AnimationFrames.
Context {F : Type} `{Scalar F}.

(** X13.  What a frame of the animation shows.  For every frame [f] that
    line 178 produces and every body, after a completed run the trail
    passed to the plot has exactly [f] points, the recorded positions of
    steps 0 to [f - 1] in order; the marker is the position recorded at step
    [f - 1], and at frame 0 the trail is empty and the marker is not set. *)
Theorem trail_at_animation_frame ms ps vs (dt : F) steps f i out :
  f ∈ frames steps -> i < 3 ->
  simulate ms ps vs dt steps = Ok out ->
  exists tl,
    trail (trajectories out) i f = Ok tl /\
    length tl = Z.to_nat f /\
    (forall t, t < Z.to_nat f -> tl !! t = trajectory_at out i t) /\
    marker tl =
      if (f =? 0)%Z then None else trajectory_at out i (Z.to_nat f - 1).
Proof.
  intros Hf Hi Hrun. apply frames_spec in Hf as [Hf _].
  apply simulate_Ok_inv in Hrun as (_ & _ & -> & Hshape).
  destruct Hshape as (Hp & Hv & Hm); [lia|].
  apply (trail_take (Z.to_nat steps)); [|done|lia|lia].
  by apply iterate_from_shaped, initial_store_shaped.
Qed.

(** X14.  The end of the run is never drawn.  A recorded step [t] of a
    completed run is in the trail of some frame of the animation exactly
    when [t] is below the last frame, 25 * ((steps - 1) / 25): the positions
    recorded from the last frame on, the last recorded step among them, are
    in no trail. *)
Theorem last_steps_never_drawn ms ps vs (dt : F) steps i t out :
  (0 <= t < steps)%Z -> i < 3 ->
  simulate ms ps vs dt steps = Ok out ->
  (exists f tl,
     f ∈ frames steps /\ trail (trajectories out) i f = Ok tl /\
     Z.to_nat t < length tl) <->
  (t < 25 * ((steps - 1) / 25))%Z.
Proof.
  intros Ht Hi Hrun.
  apply simulate_Ok_inv in Hrun as (_ & _ & -> & Hshape).
  destruct Hshape as (Hp & Hv & Hm); [lia|].
  set (out := iterate_from dt 0 (Z.to_nat steps)
                (initial_store ms ps vs steps)).
  assert (Hs : shaped (Z.to_nat steps) out)
    by (by apply iterate_from_shaped, initial_store_shaped).
  pose proof (Z.mul_div_le (steps - 1) 25 ltac:(lia)) as Hlast.
  split.
  - intros (f & tl & Hf & Htl & Hlen).
    apply frames_spec in Hf as [Hf [q Hq]].
    destruct (trail_take (Z.to_nat steps) out i f) as (tl' & Htl' & Hlen' & _);
      [done | done | lia | lia |].
    assert (tl' = tl) as -> by congruence.
    assert (q <= (steps - 1) / 25)%Z by (apply Z.div_le_lower_bound; lia).
    lia.
  - intros Hlt.
    assert (Hin : (25 * ((steps - 1) / 25))%Z ∈ frames steps).
    { apply frames_spec. split; [lia|]. exists ((steps - 1) / 25)%Z. lia. }
    destruct (trail_take (Z.to_nat steps) out i (25 * ((steps - 1) / 25)))
      as (tl & Htl & Hlen & _); [done | done | lia | lia |].
    exists (25 * ((steps - 1) / 25))%Z, tl. repeat split; [done..|]. lia.
Qed.

End AnimationFrames.

(** X15.  The projection planes of lines 150 to 152 lie inside the limits
    they are computed from, in exact arithmetic: for limits with lower below
    upper, the plane at 1% and the plane at 5% are strictly between the two
    limits, the 1% plane nearer to the lower one. *)
Theorem planes_inside_limits (lim : R * R) :
  (fst lim < snd lim)%R ->
  (fst lim < plane lim f_0_01 < plane lim f_0_05)%R /\
  (plane lim f_0_05 < snd lim)%R.
Proof.
  destruct lim as [lo hi]. unfold plane.
  cbn [fst snd fadd fsub fmul R_Scalar f_0_01 f_0_05 R_PlotScalar].
  intros Hlt. lra.
Qed.

(** * Beyond the claims: the theorems at concrete inputs *)

Lemma script_run steps :
  (0 <= steps <= Script.steps)%Z ->
  simulate Script.masses Script.positions Script.velocities Script.dt steps =
    Ok (iterate_from Script.dt 0 (Z.to_nat steps)
          (initial_store Script.masses Script.positions Script.velocities steps)).
Proof.
  unfold Script.steps. intros Hsteps.
  apply simulate_shaped; try reflexivity; unfold max_intp; lia.
Defined.

Lemma exact_run dt steps :
  (0 <= steps <= Script.steps)%Z ->
  simulate exact_masses exact_positions exact_velocities dt steps =
    Ok (iterate_from dt 0 (Z.to_nat steps)
          (initial_store exact_masses exact_positions exact_velocities steps)).
Proof.
  unfold Script.steps. intros Hsteps.
  apply simulate_shaped; try reflexivity; unfold max_intp; lia.
Defined.

Lemma trajectory_is_state_sequence_witness :
  exists out out_t,
    simulate Script.masses Script.positions Script.velocities Script.dt 3
      = Ok out /\
    simulate Script.masses Script.positions Script.velocities Script.dt 2
      = Ok out_t /\
    trajectory_at out 0 2 = positions out_t !! 0.
Proof.
  do 2 eexists.
  split; [apply (script_run 3); by vm_compute|].
  split; [apply (script_run 2); by vm_compute|].
  apply (trajectory_is_state_sequence Script.masses Script.positions
           Script.velocities Script.dt 3 2);
    [lia | apply (script_run 3); by vm_compute
         | apply (script_run 2); by vm_compute | lia].
Defined.

Lemma runs_compose_witness :
  exists out out_n out_m,
    simulate Script.masses Script.positions Script.velocities Script.dt 3
      = Ok out /\
    simulate Script.masses Script.positions Script.velocities Script.dt 1
      = Ok out_n /\
    simulate Script.masses (positions out_n) (velocities out_n) Script.dt 2
      = Ok out_m /\
    positions out = positions out_m.
Proof.
  assert (exists out_m,
    simulate Script.masses
      (positions (iterate_from Script.dt 0 1
                    (initial_store Script.masses Script.positions
                       Script.velocities 1)))
      (velocities (iterate_from Script.dt 0 1
                     (initial_store Script.masses Script.positions
                        Script.velocities 1)))
      Script.dt 2 = Ok out_m) as [out_m Hsecond].
  { eexists. apply simulate_shaped; try reflexivity; unfold max_intp; lia. }
  eexists _, _, out_m.
  split; [apply (script_run 3); by vm_compute|].
  split; [apply (script_run 1); by vm_compute|].
  split; [exact Hsecond|].
  apply (proj1 (runs_compose Script.masses Script.positions
                  Script.velocities Script.dt 1 2 _ _ out_m
                  ltac:(lia) ltac:(lia)
                  (script_run 3 ltac:(by vm_compute))
                  (script_run 1 ltac:(by vm_compute)) Hsecond)).
Defined.

Lemma loop_body_writes_one_column_witness :
  trajectory_at (next_store Script.dt 0 float_store) 0 1 =
  trajectory_at float_store 0 1.
Proof.
  apply (loop_body_writes_one_column Script.dt 0 float_store); [|lia].
  apply (loop_body_shaped 3); [exact float_store_shaped | lia].
Defined.

Lemma first_step_exceptions_witness :
  main_loop Script.dt 5
    (initial_store Script.masses (take 1 Script.positions) Script.velocities 5)
  = Raise IndexError.
Proof.
  destruct (first_step_exceptions Script.dt 5
              (initial_store Script.masses (take 1 Script.positions)
                 Script.velocities 5)) as (_ & Hone & _).
  - lia.
  - reflexivity.
  - repeat constructor.
  - apply Hone. reflexivity.
Defined.

Lemma own_mass_irrelevant_witness :
  exists acc acc',
    compute_accelerations Script.positions float_store = Ok (acc, float_store) /\
    value_of (compute_accelerations Script.positions
                (mkStore (<[0 := 0%float]> Script.masses) Script.positions
                   Script.velocities (trajectories float_store))) = Ok acc' /\
    acc' !! 0 = acc !! 0.
Proof.
  eexists.
  destruct (own_mass_irrelevant Script.positions float_store
              (map (acc_row Script.masses Script.positions) (range 3))
              0 0%float) as (acc' & Hrun & Hrow).
  - lia.
  - apply (compute_accelerations_three Script.positions float_store);
      [reflexivity | cbn; lia].
  - exists acc'. split; [|split; [exact Hrun | exact Hrow]].
    apply (compute_accelerations_three Script.positions float_store);
      [reflexivity | cbn; lia].
Defined.

Lemma exact_positions_distinct i j :
  i < 3 -> j < 3 -> i <> j ->
  nth i exact_positions vzero <> nth j exact_positions vzero.
Proof.
  intros Hi Hj Hij.
  destruct i as [|[|[|i]]]; destruct j as [|[|[|j]]]; try lia;
    cbn [exact_positions nth]; intros Heq;
    pose proof (f_equal vx Heq) as Hx; pose proof (f_equal vy Heq) as Hy;
    cbn [vx vy] in Hx, Hy; lra.
Defined.

Lemma exact_run_never_coincident out :
  simulate exact_masses exact_positions exact_velocities exact_dt 1 = Ok out ->
  never_coincident 1 out.
Proof.
  rewrite exact_run by (by vm_compute). intros [= <-].
  intros t i j p q Ht Hi Hj Hij.
  assert (t = 0%nat) as -> by (change (Z.to_nat 1) with 1%nat in Ht; lia).
  change (Z.to_nat 1) with 1%nat. cbn [iterate_from].
  rewrite !(next_store_trajectory_eq 1)
    by first [ apply exact_store_shaped | lia ].
  cbn [initial_store positions].
  intros Hp Hq Heq. apply (exact_positions_distinct i j Hi Hj Hij).
  by rewrite !nth_lookup, Hp, Hq.
Defined.

Lemma momentum_conserved_over_run_witness :
  exists out,
    simulate exact_masses exact_positions exact_velocities exact_dt 1 = Ok out /\
    weighted_sum exact_masses (velocities out) =
    weighted_sum exact_masses exact_velocities.
Proof.
  eexists. split; [apply (exact_run exact_dt 1); by vm_compute|].
  apply (proj1 (momentum_conserved_over_run exact_masses exact_positions
                  exact_velocities exact_dt 1 _ eq_refl
                  (exact_run exact_dt 1 ltac:(by vm_compute))
                  (exact_run_never_coincident _
                     (exact_run exact_dt 1 ltac:(by vm_compute))))).
Defined.

Lemma angular_momentum_conserved_over_run_witness :
  exists out,
    simulate exact_masses exact_positions exact_velocities exact_dt 1 = Ok out /\
    angular_momentum exact_masses (positions out) (velocities out) =
    angular_momentum exact_masses exact_positions exact_velocities.
Proof.
  eexists. split; [apply (exact_run exact_dt 1); by vm_compute|].
  apply (angular_momentum_conserved_over_run exact_masses exact_positions
           exact_velocities exact_dt 1).
  - reflexivity.
  - apply (exact_run exact_dt 1); by vm_compute.
  - apply exact_run_never_coincident, (exact_run exact_dt 1); by vm_compute.
Defined.

Lemma translation_invariance_witness :
  exists out out',
    simulate exact_masses exact_positions exact_velocities exact_dt 1 = Ok out /\
    simulate exact_masses (translate displacement exact_positions)
      exact_velocities exact_dt 1 = Ok out' /\
    positions out' = translate displacement (positions out).
Proof.
  assert (exists out',
    simulate exact_masses (translate displacement exact_positions)
      exact_velocities exact_dt 1 = Ok out') as [out' Hmoved].
  { eexists. apply simulate_shaped; try reflexivity; unfold max_intp; lia. }
  eexists _, out'. split; [apply (exact_run exact_dt 1); by vm_compute|].
  split; [exact Hmoved|].
  apply (translation_invariance exact_masses exact_positions exact_velocities
           exact_dt 1 displacement _ out'
           (exact_run exact_dt 1 ltac:(by vm_compute)) Hmoved
           (exact_run_never_coincident _
              (exact_run exact_dt 1 ltac:(by vm_compute)))).
Defined.

Lemma zero_time_step_freezes_witness :
  exists out,
    simulate exact_masses exact_positions exact_velocities 0%R 2 = Ok out /\
    positions out = exact_positions /\
    trajectory_at out 1 1 = exact_positions !! 1.
Proof.
  eexists. split; [apply (exact_run 0%R 2); by vm_compute|].
  destruct (zero_time_step_freezes exact_masses exact_positions
              exact_velocities 2 _ exact_positions_distinct
              (exact_run 0%R 2 ltac:(by vm_compute)))
    as (Hpos & _ & Hcol).
  split; [exact Hpos|].
  apply Hcol; change (Z.to_nat 2) with 2; lia.
Defined.

Lemma nan_position_contaminates_all_witness :
  exists s' v,
    loop_body Script.dt 0 nan_store = Ok (tt, s') /\
    velocities s' !! 2 = Some v /\ all_nan v = true.
Proof.
  destruct (nan_position_contaminates_all 3 Script.dt 0 nan_store 0
              (mkVec3 nan 0 0)%float) as (s' & Hbody & Hall).
  - by apply initial_store_shaped.
  - lia.
  - lia.
  - reflexivity.
  - left. reflexivity.
  - destruct (Hall 2) as (v & q & Hv & _ & Hnan & _); [lia|].
    exists s', v. repeat split; assumption.
Defined.

Lemma axis_limits_frame_run_witness :
  exists L,
    axis_limits (trajectories exact_store) = Ok L /\
    inside L (mkVec3 0 0 0)%R.
Proof.
  destruct (axis_limits_frame_run exact_store 0 0 (mkVec3 0 0 0)%R)
    as (L & HL & Hin & _); [reflexivity|].
  exists L. split; [exact HL|]. apply (Hin 0%nat 0%nat). reflexivity.
Defined.

Lemma framing_needs_one_step_witness :
  exists out L,
    simulate Script.masses Script.positions Script.velocities Script.dt 2
      = Ok out /\
    axis_limits (trajectories out) = Ok L.
Proof.
  destruct (proj2 (framing_needs_one_step Script.masses Script.positions
                     Script.velocities Script.dt 2)
              _ ltac:(lia) (script_run 2 ltac:(by vm_compute))) as [L HL].
  eexists _, L. split; [apply (script_run 2); by vm_compute | exact HL].
Defined.

Lemma frame_25_of_30 : 25%Z ∈ frames 30.
Proof. apply frames_spec. split; [lia|]. exists 1%Z. lia. Defined.

Lemma trail_at_animation_frame_witness :
  exists out tl,
    simulate Script.masses Script.positions Script.velocities Script.dt 30
      = Ok out /\
    trail (trajectories out) 0 25 = Ok tl /\
    length tl = 25.
Proof.
  destruct (trail_at_animation_frame Script.masses Script.positions
              Script.velocities Script.dt 30 25 0 _ frame_25_of_30
              ltac:(lia) (script_run 30 ltac:(by vm_compute)))
    as (tl & Htl & Hlen & _).
  eexists _, tl. split; [apply (script_run 30); by vm_compute|].
  split; [exact Htl | exact Hlen].
Defined.

Lemma last_steps_never_drawn_witness :
  exists out,
    simulate Script.masses Script.positions Script.velocities Script.dt 30
      = Ok out /\
    ((exists f tl,
        f ∈ frames 30 /\ trail (trajectories out) 0 f = Ok tl /\
        Z.to_nat 29 < length tl) <->
     (29 < 25 * ((30 - 1) / 25))%Z).
Proof.
  eexists. split; [apply (script_run 30); by vm_compute|].
  apply (last_steps_never_drawn Script.masses Script.positions
           Script.velocities Script.dt 30 0 29);
    [lia | lia | apply (script_run 30); by vm_compute].
Defined.

Lemma planes_inside_limits_witness :
  (0 < plane (0, 1) f_0_01 < plane (0, 1) f_0_05)%R /\
  (plane (0, 1) f_0_05 < 1)%R.
Proof. apply (planes_inside_limits (0, 1)%R). cbn [fst snd]. lra. Defined.
